(** * suzi-famlet: multisig orchestration, message chunking, holder paging

  A shallow embedding of three pieces of the repository:
  - [MessageManager.splitMessage]  (clients/telegram/messageManager)
  - [MultiSigService]              (services/multisig)
  - [TokenProvider.fetchHolderList] (src/providers/tokens.ts)

  JavaScript values are modelled as follows.  A string is the list of
  its UTF-16 code units; an integer-valued [number] is the [Z] it
  denotes, with the rounding of IEEE-754 binary64 written out; a
  [bigint] is a [Z]; an [async] method is a computation over an
  explicit world (clock, entropy counter, event log) that either
  fulfils with a value or rejects with an error. *)

From Stdlib Require Import ZArith NArith List Bool Ascii String Lia.
From stdpp Require Import base option list strings pretty gmap fin_maps.

Local Open Scope Z_scope.
#[local] Set Warnings "-register-all".

(* ===================================================================== *)
(** ** JavaScript numbers restricted to integer values *)
(* ===================================================================== *)

Module JsNumber.

(** Width of the binary64 significand, hidden bit included. *)
Definition mantissa_bits : Z := 53.

(** Nearest binary64 value of a non-negative integer [n], ties to the
    even significand.  Exact below [2^1024], far beyond any [u64]. *)
Definition round_to_double (n : Z) : Z :=
  let e := Z.log2 n - (mantissa_bits - 1) in
  if e <=? 0 then n
  else
    let q := Z.shiftr n e in
    let r := Z.land n (Z.ones e) in
    let half := Z.shiftl 1 (e - 1) in
    let q' := if (half <? r) || ((r =? half) && Z.odd q) then q + 1 else q in
    Z.shiftl q' e.

(** [Number(bn)] for a [BN] holding a [u64]: [BN.toString()] yields the
    decimal digits, [Number] of a decimal string is the nearest double. *)
Definition Number (bn : Z) : Z := round_to_double bn.

(** [x + y] on two integer-valued doubles: the exact sum, rounded. *)
Definition add (x y : Z) : Z := round_to_double (x + y).

(** [BigInt(x)] for an integer-valued double is exact. *)
Definition BigInt (x : Z) : Z := x.

(** [Number.MAX_SAFE_INTEGER] *)
Definition MAX_SAFE_INTEGER : Z := 2 ^ 53 - 1.

Definition u64_max : Z := 2 ^ 64 - 1.
Definition is_u64 (n : Z) : Prop := 0 <= n <= u64_max.

End JsNumber.

(* ===================================================================== *)
(** ** JavaScript strings *)
(* ===================================================================== *)

Module JsString.

(** A string is its sequence of UTF-16 code units. *)
Definition t : Type := list N.

Definition newline : N := 10%N.

(** [s.length] *)
Definition length (s : t) : Z := Z.of_nat (List.length s).

(** Truthiness of a string: only the empty string is falsy. *)
Definition truthy (s : t) : bool :=
  match s with [] => false | _ :: _ => true end.

(** [s.split("\n")]: never returns an empty array. *)
Fixpoint split_newline (s : t) : list t :=
  match s with
  | [] => [[]]
  | c :: rest =>
      if N.eqb c newline then [] :: split_newline rest
      else match split_newline rest with
           | line :: lines => (c :: line) :: lines
           | [] => [[c]]
           end
  end.

(** Code units of an ASCII literal, for examples. *)
Fixpoint of_string (s : string) : t :=
  match s with
  | EmptyString => []
  | String a rest => N_of_ascii a :: of_string rest
  end.

End JsString.

(* ===================================================================== *)
(** ** MessageManager.splitMessage *)
(* ===================================================================== *)

Module MessageManager.

Definition MAX_MESSAGE_LENGTH : Z := 4096.

(** The two locals of [splitMessage] that the loop updates. *)
Record locals := Locals { chunks : list JsString.t; currentChunk : JsString.t }.

(** [if (currentChunk) chunks.push(currentChunk)] *)
Definition push_if_truthy (cs : list JsString.t) (c : JsString.t) : list JsString.t :=
  if JsString.truthy c then cs ++ [c] else cs.

(** Body of [for (const line of lines)]. *)
Definition loop_body (st : locals) (line : JsString.t) : locals :=
  if JsString.length (currentChunk st) + JsString.length line + 1 <=? MAX_MESSAGE_LENGTH
  then Locals (chunks st)
              (currentChunk st ++
                 ((if JsString.truthy (currentChunk st) then [JsString.newline] else [])
                    ++ line))
  else Locals (push_if_truthy (chunks st) (currentChunk st)) line.

Definition splitMessage (text : JsString.t) : list JsString.t :=
  let st := fold_left loop_body (JsString.split_newline text) (Locals [] []) in
  push_if_truthy (chunks st) (currentChunk st).

(** What the loop maintains: every finished chunk is non-empty and fits,
    and the chunk under construction fits. *)
Definition chunk_ok (c : JsString.t) : Prop :=
  0 < JsString.length c <= MAX_MESSAGE_LENGTH.

Definition locals_ok (st : locals) : Prop :=
  Forall chunk_ok (chunks st) /\ JsString.length (currentChunk st) <= MAX_MESSAGE_LENGTH.

End MessageManager.

(* ===================================================================== *)
(** ** Async computations: state passing with rejection *)
(* ===================================================================== *)

Module Async.

(** The reason of a rejected promise (the thrown value). *)
Definition Error : Type := string.

Inductive outcome (A : Type) : Type :=
  | Fulfilled (a : A)
  | Rejected (e : Error).
Arguments Fulfilled {A} a.
Arguments Rejected {A} e.

(** An [async] body over a mutable store [S]. *)
Definition t (S A : Type) : Type := S -> outcome A * S.

Definition ret {S A} (a : A) : t S A := fun s => (Fulfilled a, s).

(** [throw e] *)
Definition throw {S A} (e : Error) : t S A := fun s => (Rejected e, s).

(** [const x = await m; k x]: a rejection of [m] skips [k]. *)
Definition bind {S A B} (m : t S A) (k : A -> t S B) : t S B :=
  fun s =>
    match m s with
    | (Fulfilled a, s') => k a s'
    | (Rejected e, s') => (Rejected e, s')
    end.

Definition get {S} : t S S := fun s => (Fulfilled s, s).
Definition modify {S} (f : S -> S) : t S unit := fun s => (Fulfilled tt, f s).

(** [try { m } catch (error) { h error }] *)
Definition try_catch {S A} (m : t S A) (h : Error -> t S A) : t S A :=
  fun s =>
    match m s with
    | (Fulfilled a, s') => (Fulfilled a, s')
    | (Rejected e, s') => h e s'
    end.

End Async.

Notation "'let*' x ':=' m 'in' k" := (Async.bind m (fun x => k))
  (at level 10, x name, m at level 100, k at level 200).

(* ===================================================================== *)
(** ** Solana values and the Squads multisig client *)
(* ===================================================================== *)

Module Solana.

(** A 32-byte public key, as the number its bytes encode. *)
Definition PublicKey : Type := N.

Record Keypair := { publicKey : PublicKey; secretKey : N }.

Definition Blockhash : Type := string.

(** A [Connection] is identified by its RPC endpoint. *)
Definition Connection : Type := string.

End Solana.

Module Squads.
Import Solana.

(** [multisig.types.Permissions] *)
Record Permissions := { mask : Z }.

(** [multisig.types.Period] *)
Inductive Period := OneTime | Day | Week | Month.

Record Member := { key : PublicKey; permissions : Permissions }.

(** The client library's address derivations and constants.  They are
    pure functions of their seeds; their bodies (hashing) belong to the
    library. *)
Class Sdk := {
  getProgramConfigPda : PublicKey;
  getMultisigPda : PublicKey -> PublicKey;
  getVaultPda : PublicKey -> Z -> PublicKey;
  getSpendingLimitPda : PublicKey -> PublicKey -> PublicKey;
  Permissions_all : Permissions;
}.

(** Account data returned by [accounts.ProgramConfig.fromAccountAddress]. *)
Record ProgramConfig := {
  authority : PublicKey;
  multisigCreationFee : Z;
  pc_treasury : PublicKey;
}.

(** Account data returned by [accounts.Multisig.fromAccountAddress];
    [transactionIndex] is a [u64] held in a [BN]. *)
Record Multisig := {
  ms_threshold : Z;
  ms_members : list Member;
  transactionIndex : Z;
  staleTransactionIndex : Z;
}.

Record TransactionMessage (I : Type) := {
  payerKey : PublicKey;
  recentBlockhash : Blockhash;
  instructions : list I;
}.
Arguments payerKey {I}.
Arguments recentBlockhash {I}.
Arguments instructions {I}.

(** Arguments of [instructions.multisigCreateV2]. *)
Record MultisigCreateV2Args := {
  mc_createKey : PublicKey;
  mc_creator : PublicKey;
  mc_multisigPda : PublicKey;
  mc_configAuthority : PublicKey;
  mc_timeLock : Z;
  mc_members : list Member;
  mc_threshold : Z;
  mc_treasury : option PublicKey;
  mc_rentCollector : PublicKey;
}.

(** Arguments of [instructions.multisigAddSpendingLimit]. *)
Record MultisigAddSpendingLimitArgs := {
  sl_multisigPda : PublicKey;
  sl_configAuthority : PublicKey;
  sl_spendingLimit : PublicKey;
  sl_rentPayer : PublicKey;
  sl_createKey : PublicKey;
  sl_vaultIndex : Z;
  sl_mint : string;
  sl_amount : Z;
  sl_period : Period;
  sl_members : list PublicKey;
  sl_destinations : list PublicKey;
}.

(** Arguments of [instructions.vaultTransactionCreate]. *)
Record VaultTransactionCreateArgs (I : Type) := {
  vc_multisigPda : PublicKey;
  vc_transactionIndex : Z;
  vc_creator : PublicKey;
  vc_vaultIndex : Z;
  vc_ephemeralSigners : Z;
  vc_transactionMessage : TransactionMessage I;
}.
Arguments vc_multisigPda {I}.
Arguments vc_transactionIndex {I}.
Arguments vc_creator {I}.
Arguments vc_vaultIndex {I}.
Arguments vc_ephemeralSigners {I}.
Arguments vc_transactionMessage {I}.

(** Arguments of [instructions.proposalCreate]. *)
Record ProposalCreateArgs := {
  pc_multisigPda : PublicKey;
  pc_transactionIndex : Z;
  pc_creator : PublicKey;
}.

(** Arguments of [instructions.proposalApprove]. *)
Record ProposalApproveArgs := {
  pa_multisigPda : PublicKey;
  pa_member : PublicKey;
  pa_transactionIndex : Z;
}.

(** Arguments of [instructions.vaultTransactionExecute]. *)
Record VaultTransactionExecuteArgs := {
  ve_connection : Connection;
  ve_multisigPda : PublicKey;
  ve_transactionIndex : Z;
  ve_member : PublicKey;
}.

(** A [TransactionInstruction] is recorded by the builder that made it
    and the arguments the builder received; instructions of other
    programs are kept as their program id and data. *)
Inductive TransactionInstruction : Type :=
| IxMultisigCreateV2 (a : MultisigCreateV2Args)
| IxMultisigAddSpendingLimit (a : MultisigAddSpendingLimitArgs)
| IxVaultTransactionCreate (a : VaultTransactionCreateArgs TransactionInstruction)
| IxProposalCreate (a : ProposalCreateArgs)
| IxProposalApprove (a : ProposalApproveArgs)
| IxVaultTransactionExecute (a : VaultTransactionExecuteArgs)
| IxOther (programId : PublicKey) (data : list N).

(** [instructions.proposalCreate(args)]: the library throws
    ["transactionIndex is too large"] for an index above
    [Number.MAX_SAFE_INTEGER], and builds the instruction otherwise. *)
Definition proposalCreate (a : ProposalCreateArgs) : Async.outcome TransactionInstruction :=
  if JsNumber.MAX_SAFE_INTEGER <? pc_transactionIndex a
  then Async.Rejected "transactionIndex is too large"%string
  else Async.Fulfilled (IxProposalCreate a).

Definition AddressLookupTableAccount : Type := PublicKey.

(** What [await instructions.vaultTransactionExecute(...)] resolves to. *)
Record ExecuteResult := {
  instruction : TransactionInstruction;
  lookupTableAccounts : list AddressLookupTableAccount;
}.

End Squads.

(* ===================================================================== *)
(** ** The external world seen by MultiSigService *)
(* ===================================================================== *)

Module World.
Import Solana Squads.

(** Answers of the outside world.  Each answer may depend on the moment
    it is asked ([nat]: the number of requests made before it), so a
    ledger that changes between two calls is a ledger whose answers
    differ at two moments. *)
Record Ledger := {
  latestBlockhash_at : nat -> Async.outcome Blockhash;
  programConfig_at : nat -> PublicKey -> Async.outcome ProgramConfig;
  multisig_at : nat -> PublicKey -> Async.outcome Multisig;
  lookupTables_at : nat -> VaultTransactionExecuteArgs ->
                    Async.outcome (list AddressLookupTableAccount);
  (** the n-th draw of [Keypair.generate()] *)
  keypair_at : nat -> Keypair;
}.

Inductive Event :=
  | EvGetLatestBlockhash (c : Connection)
  | EvFetchProgramConfig (c : Connection) (addr : PublicKey)
  | EvFetchMultisig (c : Connection) (addr : PublicKey)
  | EvVaultTransactionExecute (a : VaultTransactionExecuteArgs)
  | EvKeypairGenerate
  | EvConsoleLog (msg : string).

Record t := {
  ledger : Ledger;
  clock : nat;        (* requests made so far *)
  entropy : nat;      (* keypairs drawn so far *)
  log : list Event;   (* everything done so far, oldest first *)
}.

Definition record (ev : Event) (w : t) : t :=
  {| ledger := ledger w; clock := clock w; entropy := entropy w;
     log := log w ++ [ev] |}.

Definition tick (w : t) : t :=
  {| ledger := ledger w; clock := S (clock w); entropy := entropy w;
     log := log w |}.

Definition draw (w : t) : t :=
  {| ledger := ledger w; clock := clock w; entropy := S (entropy w);
     log := log w |}.

(** One request to the ledger: logged, answered at the current moment. *)
Definition request {A} (ev : Event) (answer : Ledger -> nat -> Async.outcome A)
  : Async.t t A :=
  fun w => (answer (ledger w) (clock w), tick (record ev w)).

(** [connection.getLatestBlockhash()] *)
Definition getLatestBlockhash (c : Connection) : Async.t t Blockhash :=
  request (EvGetLatestBlockhash c) latestBlockhash_at.

(** [multisig.accounts.ProgramConfig.fromAccountAddress(c, addr)] *)
Definition ProgramConfig_fromAccountAddress (c : Connection) (addr : PublicKey)
  : Async.t t ProgramConfig :=
  request (EvFetchProgramConfig c addr) (fun l n => programConfig_at l n addr).

(** [multisig.accounts.Multisig.fromAccountAddress(c, addr)] *)
Definition Multisig_fromAccountAddress (c : Connection) (addr : PublicKey)
  : Async.t t Multisig :=
  request (EvFetchMultisig c addr) (fun l n => multisig_at l n addr).

(** [multisig.instructions.vaultTransactionExecute(args)]: the library
    reads the stored transaction and its lookup tables, then builds. *)
Definition vaultTransactionExecute (a : VaultTransactionExecuteArgs)
  : Async.t t ExecuteResult :=
  let* tables := request (EvVaultTransactionExecute a)
                         (fun l n => lookupTables_at l n a) in
  Async.ret {| instruction := IxVaultTransactionExecute a;
               lookupTableAccounts := tables |}.

(** [Keypair.generate()] *)
Definition Keypair_generate : Async.t t Keypair :=
  fun w => (Async.Fulfilled (keypair_at (ledger w) (entropy w)),
            draw (record EvKeypairGenerate w)).

(** [console.log(msg)] *)
Definition console_log (msg : string) : Async.t t unit :=
  Async.modify (record (EvConsoleLog msg)).

(** Events appended between two worlds. *)
Definition events_since (w w' : t) : list Event :=
  drop (length (log w)) (log w').

End World.

(* ===================================================================== *)
(** ** MultiSigService *)
(* ===================================================================== *)

Module MultiSigService.
Import Solana Squads.

(** The private and public fields of the class. *)
Record fields := {
  connection : Connection;
  feePayer : Keypair;
  createKey : Keypair;
  multisigPda : PublicKey;
  configTreasury : option PublicKey;
  agent : PublicKey;
  vaultPDA : option PublicKey;
}.

(** What a method can touch: the object it is called on and the world. *)
Record store := { this : fields; world : World.t }.

Definition io {A} (m : Async.t World.t A) : Async.t store A :=
  fun st => let (r, w') := m (world st) in (r, {| this := this st; world := w' |}).

Definition get_this : Async.t store fields :=
  fun st => (Async.Fulfilled (this st), st).

(** The result of a library builder: its instruction, or what it threw. *)
Definition built {A} (o : Async.outcome A) : Async.t store A := fun st => (o, st).

(** [this.configTreasury = v] *)
Definition set_configTreasury (v : option PublicKey) : Async.t store unit :=
  Async.modify (fun st =>
    {| this := {| connection := connection (this st);
                  feePayer := feePayer (this st);
                  createKey := createKey (this st);
                  multisigPda := multisigPda (this st);
                  configTreasury := v;
                  agent := agent (this st);
                  vaultPDA := vaultPDA (this st) |};
       world := world st |}).

Record CreateMultiSigResult := {
  cm_ix : TransactionInstruction;
  cm_create_key : Keypair;
}.

Record AddSpendingLimitResult := {
  asl_ix : TransactionInstruction;
  asl_create_key : PublicKey;
}.

Record SendTxResult := {
  transfer_ix : TransactionInstruction;
  create_ix : TransactionInstruction;
  approve_ix : TransactionInstruction;
}.

(** [new PublicKey("EPjF...")], the mint of the spending limit. *)
Definition spending_limit_mint : string :=
  "EPjFWdd5AufqSSqeM2qN1xzybapC8G4wEGGkZwyTDt1v"%string.

Section WithSdk.
Context `{Sdk}.

(** [new MultiSigService(connection, feePayer, agent, create_key?)] *)
Definition constructor (connection_ : Connection) (feePayer_ : Keypair)
    (agent_ : PublicKey) (create_key : option Keypair) : Async.t World.t fields :=
  let* createKey_ :=
    match create_key with
    | Some k => Async.ret k
    | None => World.Keypair_generate
    end in
  let pda := getMultisigPda (publicKey createKey_) in
  let vaultPDA_ := getVaultPda pda 0 in
  Async.ret {| connection := connection_;
               feePayer := feePayer_;
               createKey := createKey_;
               multisigPda := pda;
               configTreasury := None;
               agent := agent_;
               vaultPDA := Some vaultPDA_ |}.

Definition createMultiSig : Async.t store CreateMultiSigResult :=
  let programConfigPda := getProgramConfigPda in
  let* self := get_this in
  let* programConfig :=
    io (World.ProgramConfig_fromAccountAddress (connection self) programConfigPda) in
  let* _ := set_configTreasury (Some (pc_treasury programConfig)) in
  let* self := get_this in
  let ix := IxMultisigCreateV2
    {| mc_createKey := publicKey (createKey self);
       mc_creator := publicKey (feePayer self);
       mc_multisigPda := multisigPda self;
       mc_configAuthority := publicKey (feePayer self);
       mc_timeLock := 0;
       mc_members :=
         [ {| key := publicKey (feePayer self); permissions := Permissions_all |};
           {| key := agent self; permissions := Permissions_all |} ];
       mc_threshold := 1;
       mc_treasury := configTreasury self;
       mc_rentCollector := publicKey (feePayer self) |} in
  Async.ret {| cm_ix := ix; cm_create_key := createKey self |}.

Definition addSpendingLimit : Async.t store AddSpendingLimitResult :=
  let* generated := io World.Keypair_generate in
  let spendingLimitCreateKey := publicKey generated in
  let* self := get_this in
  let spendingLimitPda :=
    getSpendingLimitPda (multisigPda self) spendingLimitCreateKey in
  let ix := IxMultisigAddSpendingLimit
    {| sl_multisigPda := multisigPda self;
       sl_configAuthority := publicKey (feePayer self);
       sl_spendingLimit := spendingLimitPda;
       sl_rentPayer := publicKey (feePayer self);
       sl_createKey := spendingLimitCreateKey;
       sl_vaultIndex := 0;
       sl_mint := spending_limit_mint;
       sl_amount := JsNumber.BigInt 1000000;
       sl_period := Day;
       sl_members := [agent self];
       sl_destinations := [] |} in
  Async.ret {| asl_ix := ix; asl_create_key := spendingLimitCreateKey |}.

Definition sendTx (ix : list TransactionInstruction) : Async.t store SendTxResult :=
  let* self := get_this in
  let* blockhash := io (World.getLatestBlockhash (connection self)) in
  let tx_message :=
    {| payerKey := agent self; recentBlockhash := blockhash; instructions := ix |} in
  let* _ := io (World.console_log "step 1"%string) in
  let* multisigInfo :=
    io (World.Multisig_fromAccountAddress (connection self) (multisigPda self)) in
  let* _ := io (World.console_log "step 2"%string) in
  let currentTransactionIndex := JsNumber.Number (transactionIndex multisigInfo) in
  let newTransactionIndex :=
    JsNumber.BigInt (JsNumber.add currentTransactionIndex 1) in
  let ix_transfer := IxVaultTransactionCreate
    {| vc_multisigPda := multisigPda self;
       vc_transactionIndex := newTransactionIndex;
       vc_creator := agent self;
       vc_vaultIndex := 0;
       vc_ephemeralSigners := 0;
       vc_transactionMessage := tx_message |} in
  let* _ := io (World.console_log "step 3"%string) in
  let* ix_create := built (proposalCreate
    {| pc_multisigPda := multisigPda self;
       pc_transactionIndex := newTransactionIndex;
       pc_creator := agent self |}) in
  let* _ := io (World.console_log "step 4"%string) in
  let ix_approve := IxProposalApprove
    {| pa_multisigPda := multisigPda self;
       pa_member := agent self;
       pa_transactionIndex := newTransactionIndex |} in
  let* _ := io (World.console_log "step 5"%string) in
  let* _ := io (World.console_log "step 6"%string) in
  Async.ret {| transfer_ix := ix_transfer;
               create_ix := ix_create;
               approve_ix := ix_approve |}.

Definition executeTx : Async.t store ExecuteResult :=
  let* self := get_this in
  let* ix_execute :=
    io (World.vaultTransactionExecute
          {| ve_connection := connection self;
             ve_multisigPda := multisigPda self;
             ve_transactionIndex := JsNumber.BigInt 1;
             ve_member := agent self |}) in
  Async.ret ix_execute.

End WithSdk.

(** The index [sendTx] derives from the account it fetched:
    [BigInt(Number(multisigInfo.transactionIndex) + 1)]. *)
Definition next_index (m : Multisig) : Z :=
  JsNumber.BigInt (JsNumber.add (JsNumber.Number (transactionIndex m)) 1).

(** The transaction index an instruction is tagged with, if it has one. *)
Definition index_of (i : TransactionInstruction) : option Z :=
  match i with
  | IxVaultTransactionCreate a => Some (vc_transactionIndex a)
  | IxProposalCreate a => Some (pc_transactionIndex a)
  | IxProposalApprove a => Some (pa_transactionIndex a)
  | IxVaultTransactionExecute a => Some (ve_transactionIndex a)
  | _ => None
  end.


(** The five fields that identify the service. *)
Definition identity (f : fields) :=
  (multisigPda f, vaultPDA f, createKey f, agent f, feePayer f).

Definition is_program_config_fetch (ev : World.Event) : bool :=
  match ev with World.EvFetchProgramConfig _ _ => true | _ => false end.

Definition is_multisig_fetch (ev : World.Event) : bool :=
  match ev with World.EvFetchMultisig _ _ => true | _ => false end.

(** How many events of a kind a method appended to the log. *)
Definition count_since (p : World.Event -> bool) (w w' : World.t) : nat :=
  length (List.filter p (World.events_since w w')).

End MultiSigService.

(* ===================================================================== *)
(** ** TokenProvider.fetchHolderList *)
(* ===================================================================== *)

Module JsMap.

(** A [Map<string, V>]: entries in insertion order, one per key. *)
Definition t (V : Type) : Type := list (string * V).

(** [m.get(k)] *)
Fixpoint get {V} (k : string) (m : t V) : option V :=
  match m with
  | [] => None
  | (k', v) :: rest => if String.eqb k k' then Some v else get k rest
  end.

(** [m.set(k, v)]: an existing key keeps its place, a new one goes last. *)
Fixpoint set {V} (k : string) (v : V) (m : t V) : t V :=
  match m with
  | [] => [(k, v)]
  | (k', v') :: rest =>
      if String.eqb k k' then (k, v) :: rest else (k', v') :: set k v rest
  end.

(** [Array.from(m.entries())] *)
Definition entries {V} (m : t V) : list (string * V) := m.

Definition keys {V} (m : t V) : list string := map fst m.

End JsMap.

Module TokenProvider.

(** The arithmetic of [number] that [fetchHolderList] relies on. *)
Class JsFloat := {
  number : Type;
  parseFloat : string -> number;
  number_add : number -> number -> number;
  number_toString : number -> string;
}.

Record HolderData := { address : string; balance : string }.

(** One element of [result.token_accounts]. *)
Record TokenAccount := { owner : string; amount : string }.

Record HeliusResult := {
  token_accounts : option (list TokenAccount);
  cursor : option string;
}.

(** [response.data] when it is not null. *)
Record ResponseData := { result : option HeliusResult }.

(** The body that [fetchHolderList] posts. *)
Record Request := {
  rq_url : string;
  rq_limit : Z;
  rq_mint : string;
  rq_cursor : option string;
}.

(** The network: its answer to a post may depend on how many posts
    were made before it. *)
Definition Network : Type := nat -> Request -> Async.outcome (option ResponseData).

(** A provider together with the part of the process it uses. *)
Record state := {
  token_address : string;
  cache : gmap string (list HolderData);
  env_HELIOUS_API_KEY : option string;
  network : Network;
  (** every post made so far with its answer, oldest first *)
  exchanges : list (Request * Async.outcome (option ResponseData));
}.

(** [new TokenProvider(token_address)] in a process that has made no post. *)
Definition constructor (token_address_ : string) (key : option string)
    (net : Network) : state :=
  {| token_address := token_address_; cache := ∅;
     env_HELIOUS_API_KEY := key; network := net; exchanges := [] |}.

(** [axios.post(url, body)] *)
Definition axios_post (rq : Request) : Async.t state (option ResponseData) :=
  fun st =>
    let answer := network st (length (exchanges st)) rq in
    (answer,
     {| token_address := token_address st; cache := cache st;
        env_HELIOUS_API_KEY := env_HELIOUS_API_KEY st; network := network st;
        exchanges := exchanges st ++ [(rq, answer)] |}).

(** [this.getCachedData(key)] *)
Definition getCachedData (k : string) : Async.t state (option (list HolderData)) :=
  fun st => (Async.Fulfilled (cache st !! k), st).

(** [this.setCachedData(key, data, ttl)] *)
Definition setCachedData (k : string) (data : list HolderData) (ttl : Z)
  : Async.t state unit :=
  Async.modify (fun st =>
    {| token_address := token_address st; cache := <[k := data]> (cache st);
       env_HELIOUS_API_KEY := env_HELIOUS_API_KEY st; network := network st;
       exchanges := exchanges st |}).

(** An entry whose time to live has run out leaves the cache. *)
Definition expire (k : string) (st : state) : state :=
  {| token_address := token_address st; cache := delete k (cache st);
     env_HELIOUS_API_KEY := env_HELIOUS_API_KEY st; network := network st;
     exchanges := exchanges st |}.

(** [provider.token_address = a] (the field is public). *)
Definition set_token_address (a : string) (st : state) : state :=
  {| token_address := a; cache := cache st;
     env_HELIOUS_API_KEY := env_HELIOUS_API_KEY st; network := network st;
     exchanges := exchanges st |}.

(** How an iteration of [while (true)] ends. *)
Inductive control (L : Type) : Type :=
| Break (l : L)
| Continue (l : L).
Arguments Break {L} l.
Arguments Continue {L} l.

(** [while (true) { body }], run for at most [fuel] iterations; [None]
    when the loop is still running after them. *)
Fixpoint while_true {S L} (fuel : nat) (body : L -> Async.t S (control L)) (l : L)
  : Async.t S (option L) :=
  match fuel with
  | O => Async.ret None
  | Datatypes.S fuel' =>
      let* c := body l in
      match c with
      | Break l' => Async.ret (Some l')
      | Continue l' => while_true fuel' body l'
      end
  end.

(** The token accounts of a response that make the loop go on. *)
Definition accounts_of (data : option ResponseData) : option (list TokenAccount) :=
  match data with
  | None => None
  | Some d =>
      match result d with
      | None => None
      | Some res =>
          match token_accounts res with
          | None => None
          | Some [] => None
          | Some (a :: rest) => Some (a :: rest)
          end
      end
  end.

(** [data.result.cursor], read after the checks above passed. *)
Definition cursor_of (data : option ResponseData) : option string :=
  match data with
  | Some d => match result d with Some res => cursor res | None => None end
  | None => None
  end.

Definition helius_url (key : option string) : string :=
  String.append "https://mainnet.helius-rpc.com/?api-key="
    (match key with Some k => k | None => EmptyString end).

Definition error_message : Async.Error := "Failed to fetch holder list from Helius."%string.

Section WithFloat.
Context `{JsFloat}.

(** The locals that the loop of [fetchHolderList] updates. *)
Record locals := {
  allHoldersMap : JsMap.t number;
  page : Z;
  cursor_var : option string;
}.

(** Body of [token_accounts.forEach]. *)
Definition add_account (m : JsMap.t number) (account : TokenAccount) : JsMap.t number :=
  let owner_ := owner account in
  let balance_ := parseFloat (amount account) in
  match JsMap.get owner_ m with
  | Some held => JsMap.set owner_ (number_add held balance_) m
  | None => JsMap.set owner_ balance_ m
  end.

Definition loop_body (url : string) (mint : string) (l : locals)
  : Async.t state (control locals) :=
  let params :=
    {| rq_url := url; rq_limit := 1000; rq_mint := mint; rq_cursor := cursor_var l |} in
  if 100 <? page l then Async.ret (Break l)
  else
    let* data := axios_post params in
    match accounts_of data with
    | None => Async.ret (Break l)
    | Some accounts =>
        Async.ret (Continue
          {| allHoldersMap := fold_left add_account accounts (allHoldersMap l);
             page := page l + 1;
             cursor_var := cursor_of data |})
    end.

Definition holders_of (m : JsMap.t number) : list HolderData :=
  map (fun entry => {| address := fst entry; balance := number_toString (snd entry) |})
      (JsMap.entries m).

(** [fetchHolderList()], its loop run for at most [fuel] iterations;
    fulfils with [None] when the loop is still running after them. *)
Definition fetchHolderList (fuel : nat) : Async.t state (option (list HolderData)) :=
  let* self := Async.get in
  let cacheKey := String.append "holderList_" (token_address self) in
  let* cachedData := getCachedData cacheKey in
  match cachedData with
  | Some data => Async.ret (Some data)
  | None =>
      let url := helius_url (env_HELIOUS_API_KEY self) in
      Async.try_catch
        (let* final :=
           while_true fuel (loop_body url (token_address self))
             {| allHoldersMap := []; page := 1; cursor_var := None |} in
         match final with
         | None => Async.ret None
         | Some l =>
             let holders := holders_of (allHoldersMap l) in
             let* _ := setCachedData cacheKey holders 3600 in
             Async.ret (Some holders)
         end)
        (fun _ => Async.throw error_message)
  end.

(** The states a provider can be in: built by the constructor, then any
    number of calls, expiries and assignments to [token_address]. *)
Inductive reachable : state -> Prop :=
| reach_new a key net : reachable (constructor a key net)
| reach_fetch fuel st : reachable st -> reachable (snd (fetchHolderList fuel st))
| reach_expire k st : reachable st -> reachable (expire k st)
| reach_assign a st : reachable st -> reachable (set_token_address a st).

End WithFloat.

(** Every cached list names each address once. *)
Definition cache_ok (c : gmap string (list HolderData)) : Prop :=
  forall k holders, c !! k = Some holders -> NoDup (map address holders).

(** The posts made between two states. *)
Definition exchanges_since (st st' : state)
  : list (Request * Async.outcome (option ResponseData)) :=
  drop (length (exchanges st)) (exchanges st').

(** [st'] is [st] after the posts [made]; nothing else changed. *)
Definition after (st st' : state)
    (made : list (Request * Async.outcome (option ResponseData))) : Prop :=
  token_address st' = token_address st /\
  cache st' = cache st /\
  env_HELIOUS_API_KEY st' = env_HELIOUS_API_KEY st /\
  network st' = network st /\
  exchanges st' = exchanges st ++ made.

(** The answer carried no token accounts. *)
Definition no_accounts (answer : Async.outcome (option ResponseData)) : Prop :=
  exists data, answer = Async.Fulfilled data /\ accounts_of data = None.

(** The answer carried token accounts: the loop goes on after it. *)
Definition has_accounts (answer : Async.outcome (option ResponseData)) : Prop :=
  exists data accounts,
    answer = Async.Fulfilled data /\ accounts_of data = Some accounts.

(** Every post of [made] was answered with token accounts. *)
Definition all_with_accounts
    (made : list (Request * Async.outcome (option ResponseData))) : Prop :=
  Forall (fun exchange => has_accounts (snd exchange)) made.

End TokenProvider.

(* ===================================================================== *)
(** ** Joining strings, and strings without their line breaks *)
(* ===================================================================== *)

Module JsArray.

(** [parts.join("\n")] *)
Fixpoint join_newline (parts : list JsString.t) : JsString.t :=
  match parts with
  | [] => []
  | [p] => p
  | p :: rest => p ++ [JsString.newline] ++ join_newline rest
  end.

(** The code units of a string that are not line breaks, in order. *)
Definition without_newlines (s : JsString.t) : JsString.t :=
  List.filter (fun c => negb (N.eqb c JsString.newline)) s.

(** What a list of lines weighs once joined: every line and one
    separator after it. *)
Definition weight (parts : list JsString.t) : Z :=
  fold_right (fun p acc => JsString.length p + 1 + acc) 0 parts.

End JsArray.

Module MessageManagerAux.
Import MessageManager.

(** Everything the loop of [splitMessage] has put aside so far, glued
    together. *)
Definition content (st : locals) : JsString.t :=
  concat (chunks st) ++ currentChunk st.

(** A line too long to share a chunk, or to fit one. *)
Definition oversize (line : JsString.t) : Prop :=
  MAX_MESSAGE_LENGTH <= JsString.length line.

End MessageManagerAux.

(* ===================================================================== *)
(** ** Concrete keys, client and ledgers used in examples *)
(* ===================================================================== *)

Module Sample.
Import Solana Squads.

(** A stand-in for the client library: injective address derivations. *)
Definition sdk : Sdk :=
  {| getProgramConfigPda := 1%N;
     getMultisigPda := fun k => (2 * k + 1000)%N;
     getVaultPda := fun m i => (3 * m + Z.to_N i + 5000)%N;
     getSpendingLimitPda := fun m k => (m * 1000000 + k)%N;
     Permissions_all := {| mask := 7 |} |}.

Definition feePayer : Keypair := {| publicKey := 11%N; secretKey := 111%N |}.
Definition agent : PublicKey := 22%N.
Definition createKey : Keypair := {| publicKey := 33%N; secretKey := 333%N |}.
Definition endpoint : Connection := "https://devnet.helius-rpc.com/"%string.

Definition account (index : Z) : Multisig :=
  {| ms_threshold := 1; ms_members := []; transactionIndex := index;
     staleTransactionIndex := 0 |}.

Definition config : ProgramConfig :=
  {| authority := 7%N; multisigCreationFee := 0; pc_treasury := 77%N |}.

(** A ledger with the given answers; the n-th generated keypair has
    public key [100 + n]. *)
Definition ledger_with (blockhash : Async.outcome Blockhash)
  (cfg : Async.outcome ProgramConfig)
  (acct : nat -> Async.outcome Multisig) : World.Ledger :=
  {| World.latestBlockhash_at := fun _ => blockhash;
     World.programConfig_at := fun _ _ => cfg;
     World.multisig_at := fun n _ => acct n;
     World.lookupTables_at := fun _ _ => Async.Fulfilled [];
     World.keypair_at :=
       fun n => {| publicKey := (100 + N.of_nat n)%N; secretKey := 0%N |} |}.

(** A healthy ledger whose multisig account shows [index n] at moment [n]. *)
Definition ledger_moving (index : nat -> Z) : World.Ledger :=
  ledger_with (Async.Fulfilled "blockhash"%string) (Async.Fulfilled config)
              (fun n => Async.Fulfilled (account (index n))).

(** A healthy ledger whose multisig account shows [index] at every moment. *)
Definition ledger (index : Z) : World.Ledger := ledger_moving (fun _ => index).

(** A ledger whose [getLatestBlockhash] fails. *)
Definition ledger_no_blockhash : World.Ledger :=
  ledger_with (Async.Rejected "fetch failed"%string) (Async.Fulfilled config)
              (fun _ => Async.Fulfilled (account 0)).

(** A ledger on which neither account can be read. *)
Definition ledger_no_accounts : World.Ledger :=
  ledger_with (Async.Fulfilled "blockhash"%string)
              (Async.Rejected "Unable to find ProgramConfig account"%string)
              (fun _ => Async.Rejected "Unable to find Multisig account"%string).


Definition world_of (l : World.Ledger) : World.t :=
  {| World.ledger := l; World.clock := 0; World.entropy := 0; World.log := [] |}.

(** The service the driver script builds, given the create key. *)
Definition service : MultiSigService.fields :=
  {| MultiSigService.connection := endpoint;
     MultiSigService.feePayer := feePayer;
     MultiSigService.createKey := createKey;
     MultiSigService.multisigPda := @getMultisigPda sdk (publicKey createKey);
     MultiSigService.configTreasury := None;
     MultiSigService.agent := agent;
     MultiSigService.vaultPDA :=
       Some (@getVaultPda sdk (@getMultisigPda sdk (publicKey createKey)) 0) |}.

Definition store_of (l : World.Ledger) : MultiSigService.store :=
  {| MultiSigService.this := service; MultiSigService.world := world_of l |}.

(** Integer amounts stand in for [number]: [parseFloat] reads the
    leading decimal digits, [toString] prints them back. *)
Fixpoint parse_digits (s : string) (acc : Z) : Z :=
  match s with
  | EmptyString => acc
  | String c rest =>
      let d := Z.of_N (N_of_ascii c) - 48 in
      if (0 <=? d) && (d <=? 9) then parse_digits rest (10 * acc + d) else acc
  end.

Definition float : TokenProvider.JsFloat :=
  {| TokenProvider.number := Z;
     TokenProvider.parseFloat := fun s => parse_digits s 0;
     TokenProvider.number_add := Z.add;
     TokenProvider.number_toString := fun z => pretty z |}.

Definition page_of (accounts : list TokenProvider.TokenAccount)
  : Async.outcome (option TokenProvider.ResponseData) :=
  Async.Fulfilled (Some
    {| TokenProvider.result := Some
         {| TokenProvider.token_accounts := Some accounts;
            TokenProvider.cursor := Some "next"%string |} |}).

(** A network that never runs out of pages: every page holds 2 tokens
    of owner [alice] and 3 of owner [bob]. *)
Definition network_endless : TokenProvider.Network :=
  fun _ _ => page_of [ {| TokenProvider.owner := "alice"; TokenProvider.amount := "2" |};
                       {| TokenProvider.owner := "bob"; TokenProvider.amount := "3" |} ].

(** A network with two pages, both naming [alice], then an empty one. *)
Definition network_two_pages : TokenProvider.Network :=
  fun n _ =>
    if (n <? 2)%nat
    then page_of [ {| TokenProvider.owner := "alice"; TokenProvider.amount := "2" |};
                   {| TokenProvider.owner := "alice"; TokenProvider.amount := "5" |} ]
    else page_of [].

Definition provider (net : TokenProvider.Network) : TokenProvider.state :=
  TokenProvider.constructor "So11111111111111111111111111111111111111112" None net.

(** Three lines of 2000 letters: the first two share a chunk. *)
Definition three_lines : JsString.t :=
  replicate 2000 97%N ++ [JsString.newline] ++
  replicate 2000 98%N ++ [JsString.newline] ++ replicate 2000 99%N.

End Sample.

(* ===================================================================== *)
(** ** Reading the posts of fetchHolderList *)
(* ===================================================================== *)

Module TokenProviderAux.
Import TokenProvider.

(** The posts [made] form one paging session for [mint] at [url]: the
    first carries cursor [c], each later one the cursor of the answer
    before it, and nothing follows a rejected post. *)
Fixpoint chained (url mint : string) (c : option string)
    (made : list (Request * Async.outcome (option ResponseData))) : Prop :=
  match made with
  | [] => True
  | (rq, answer) :: rest =>
      rq = {| rq_url := url; rq_limit := 1000; rq_mint := mint; rq_cursor := c |} /\
      match answer with
      | Async.Fulfilled data => chained url mint (cursor_of data) rest
      | Async.Rejected _ => rest = []
      end
  end.

(** The owners named by the answers that carried token accounts, in the
    order they were read. *)
Definition owners_seen
    (made : list (Request * Async.outcome (option ResponseData))) : list string :=
  flat_map (fun exchange =>
              match snd exchange with
              | Async.Fulfilled data =>
                  match accounts_of data with
                  | Some accounts => map owner accounts
                  | None => []
                  end
              | Async.Rejected _ => []
              end) made.

(** [o] joins the keys [ks] at the end unless it is among them. *)
Definition add_key (ks : list string) (o : string) : list string :=
  if decide (o ∈ ks) then ks else ks ++ [o].

(** Each owner once, in the order of first appearance. *)
Definition distinct (owners : list string) : list string :=
  fold_left add_key owners [].

End TokenProviderAux.

(* ===================================================================== *)
(** ** ImageDescriptionService *)
(* ===================================================================== *)

Module ImageDescription.

(** The image part of a chat-completion request: a link, or the bytes of
    a PNG sent inline as a base64 data URL. *)
Inductive image :=
| ImageUrl (url : string)
| InlinePng (bytes : list N).

(** What is posted to the chat-completions endpoint. *)
Record Request := {
  rq_endpoint : string;
  rq_authorization : string;
  rq_model : string;
  rq_prompt : string;
  rq_image : image;
  rq_max_tokens : Z;
}.

(** What [fetch] resolves to; [content] is what reading
    [(await response.json()).choices[0].message.content] gives, which
    throws when the body is not of that shape. *)
Record Response := {
  ok : bool;
  status : Z;
  statusText : string;
  content : Async.outcome JsString.t;
}.

(** The network and the console, with every fetch made so far. *)
Record Http := {
  fetch_at : nat -> Request -> Async.outcome Response;
  fetched : list (Request * Async.outcome Response);
  console : list Async.Error;
}.

(** [fetch(endpoint, init)] *)
Definition fetch (rq : Request) : Async.t Http Response :=
  fun w =>
    let answer := fetch_at w (length (fetched w)) rq in
    (answer,
     {| fetch_at := fetch_at w; fetched := fetched w ++ [(rq, answer)];
        console := console w |}).

(** [console.error(..., error)] and [console.log(..., error)] *)
Definition console_error (e : Async.Error) : Async.t Http unit :=
  Async.modify (fun w =>
    {| fetch_at := fetch_at w; fetched := fetched w; console := console w ++ [e] |}).

(** A value that is already there, or the exception raised on reading it. *)
Definition settled {S A} (o : Async.outcome A) : Async.t S A := fun s => (o, s).

Definition endpoint : string := "https://api.openai.com/v1/chat/completions".

(** [const [title, ...descriptionParts] = text.split("\n");
     const description = descriptionParts.join("\n")] *)
Definition title_and_description (text : JsString.t) : JsString.t * JsString.t :=
  match JsString.split_newline text with
  | title :: descriptionParts => (title, JsArray.join_newline descriptionParts)
  | [] => ([], [])
  end.

(** *** The service that takes an API key *)

Record service := { apiKey : string }.

(** The static field [ImageDescriptionService.instance]. *)
Definition statics : Type := option service.

(** [ImageDescriptionService.getInstance(apiKey)] *)
Definition getInstance (apiKey_ : string) (static_instance : statics) : service * statics :=
  match static_instance with
  | Some existing => (existing, Some existing)
  | None => ({| apiKey := apiKey_ |}, Some {| apiKey := apiKey_ |})
  end.

Definition describe_prompt : string :=
  "Describe this image and give it a title. The first line should be the title, and then a line break, then a detailed description.".

(** [describeImage(imageUrl)] of the service that takes an API key. *)
Definition describeImage (self : service) (imageUrl : string)
  : Async.t Http (JsString.t * JsString.t) :=
  Async.try_catch
    (let* response :=
       fetch {| rq_endpoint := endpoint;
                rq_authorization := String.append "Bearer " (apiKey self);
                rq_model := "gpt-4o-mini";
                rq_prompt := describe_prompt;
                rq_image := ImageUrl imageUrl;
                rq_max_tokens := 300 |} in
     if negb (ok response)
     then Async.throw
            (String.append "HTTP error! status: "
               (String.append (pretty (status response))
                  (String.append ", " (statusText response))))
     else
       let* text := settled (content response) in
       Async.ret (title_and_description text))
    (fun error => let* _ := console_error error in Async.throw error).

(** *** The service that reads its key from the runtime *)

(** How one iteration of a [for] loop ends when it does not throw. *)
Inductive step (A : Type) : Type :=
| Return (a : A)
| Next.
Arguments Return {A} a.
Arguments Next {A}.

(** [for (let i = first; i < bound; i++) { body }  after], with [i]
    running over the given values. *)
Fixpoint for_each {S A} (values : list Z) (body : Z -> Async.t S (step A))
    (after : Async.t S A) : Async.t S A :=
  match values with
  | [] => after
  | i :: rest =>
      let* s := body i in
      match s with
      | Return a => Async.ret a
      | Next => for_each rest body after
      end
  end.

(** The body [requestOpenAI] posts. *)
Definition openai_request (key : option string) (imageUrl : string)
    (imageData : list N) (prompt : string) (isGif : bool) : Request :=
  {| rq_endpoint := endpoint;
     rq_authorization :=
       String.append "Bearer " (match key with Some k => k | None => "undefined" end);
     rq_model := "gpt-4o-mini";
     rq_prompt := prompt;
     rq_image := if isGif then InlinePng imageData else ImageUrl imageUrl;
     rq_max_tokens := if isGif then 500 else 300 |}.

(** One attempt: the [try] block of [requestOpenAI]. *)
Definition attempt (rq : Request) : Async.t Http JsString.t :=
  let* response := fetch rq in
  if negb (ok response)
  then Async.throw (String.append "HTTP error! status: " (pretty (status response)))
  else settled (content response).

(** What an answer of the network makes of an attempt. *)
Definition attempt_result (answer : Async.outcome Response) : Async.outcome JsString.t :=
  match answer with
  | Async.Rejected e => Async.Rejected e
  | Async.Fulfilled response =>
      if negb (ok response)
      then Async.Rejected (String.append "HTTP error! status: " (pretty (status response)))
      else content response
  end.

(** The body of the [for] loop of [requestOpenAI]: an attempt, and the
    [catch] that swallows its failure unless it is the third. *)
Definition retry_body (rq : Request) (retryAttempts : Z) : Async.t Http (step JsString.t) :=
  Async.try_catch
    (let* text := attempt rq in Async.ret (Return text))
    (fun error =>
       let* _ := console_error error in
       if retryAttempts =? 2 then Async.throw error else Async.ret Next).

Definition exhausted_message : Async.Error :=
  "Failed to recognize image with OpenAI after 3 attempts".

(** [requestOpenAI(imageUrl, imageData, prompt, isGif)]; [key] is
    [this.runtime.getSetting("OPENAI_API_KEY")]. *)
Definition requestOpenAI (key : option string) (imageUrl : string)
    (imageData : list N) (prompt : string) (isGif : bool) : Async.t Http JsString.t :=
  for_each [0; 1; 2]
    (retry_body (openai_request key imageUrl imageData prompt isGif))
    (Async.throw exhausted_message).

(** The fetches made between two states. *)
Definition fetched_since (w w' : Http) : list (Request * Async.outcome Response) :=
  drop (length (fetched w)) (fetched w').

End ImageDescription.

(* ===================================================================== *)
(** ** MessageManager: processImage, handleMessage; TelegramClient *)
(* ===================================================================== *)

Module Telegram.

Record PhotoSize := { file_id : string }.

Record Document := { doc_file_id : string; mime_type : option string }.

(** A Telegram message; a field is [None] when the property is absent. *)
Record Message := {
  text : option JsString.t;
  caption : option JsString.t;
  photo : option (list PhotoSize);
  document : option Document;
}.

Record User := {
  id : Z;
  username : option JsString.t;
  first_name : JsString.t;
}.

Record Chat := { chat_type : JsString.t }.

(** The part of a Telegraf [Context] that the handlers read. *)
Record Context := {
  message : option Message;
  from : option User;
  chat : option Chat;
}.

(** What the handlers call: the bot, the image service, the logger and
    the cache of the repository, the clock.  An answer may depend on how
    many calls were made before it. *)
Record Services := {
  getFileLink_at : nat -> string -> Async.outcome string;
  describeImage_at : nat -> string -> Async.outcome (JsString.t * JsString.t);
  reply_at : nat -> JsString.t -> Async.outcome unit;
  log_to_file_at : nat -> JsString.t -> JsString.t -> Async.outcome unit;
  cache_set_at : nat -> JsString.t -> JsString.t -> Z -> Async.outcome unit;
  (** [new Date().toUTCString()] and [Date.now()] *)
  utc_at : nat -> JsString.t;
  now_at : nat -> Z;
  (** [stringToUuid] of the repository's [core/uuid] *)
  stringToUuid : string -> JsString.t;
}.

Inductive Event :=
| EvGetFileLink (f : string)
| EvDescribeImage (url : string)
| EvReply (t : JsString.t)
| EvLogToFile (name line : JsString.t)
| EvCacheSet (key t : JsString.t) (timestamp : Z)
| EvConsoleError (e : Async.Error).

Record World := {
  services : Services;
  log : list Event;   (* every call made so far, oldest first *)
}.

(** How many calls were made so far. *)
Definition moment (w : World) : nat := length (log w).

(** One call: logged, and answered by the moment it is made. *)
Definition call {A} (ev : Event) (answer : Services -> nat -> Async.outcome A)
  : Async.t World A :=
  fun w => (answer (services w) (moment w),
            {| services := services w; log := log w ++ [ev] |}).

(** [this.bot.telegram.getFileLink(file_id)], read as a string *)
Definition getFileLink (f : string) : Async.t World string :=
  call (EvGetFileLink f) (fun s n => getFileLink_at s n f).

(** [this.imageService.describeImage(imageUrl)] *)
Definition describeImage (url : string) : Async.t World (JsString.t * JsString.t) :=
  call (EvDescribeImage url) (fun s n => describeImage_at s n url).

(** [ctx.reply(t)] *)
Definition reply (t : JsString.t) : Async.t World unit :=
  call (EvReply t) (fun s n => reply_at s n t).

(** [log_to_file(name, line)] *)
Definition log_to_file (name line : JsString.t) : Async.t World unit :=
  call (EvLogToFile name line) (fun s n => log_to_file_at s n name line).

(** [cache.set(key, { text, timestamp })] *)
Definition cache_set (key t : JsString.t) (timestamp : Z) : Async.t World unit :=
  call (EvCacheSet key t timestamp) (fun s n => cache_set_at s n key t timestamp).

(** [console.error(..., error)] *)
Definition console_error (e : Async.Error) : Async.t World unit :=
  call (EvConsoleError e) (fun _ _ => Async.Fulfilled tt).

(** [s.replace(/:/g, "-")] *)
Definition replace_colons (s : JsString.t) : JsString.t :=
  map (fun c => if N.eqb c 58 then 45%N else c) s.

(** [a || b] on strings *)
Definition or_else (a b : JsString.t) : JsString.t :=
  if JsString.truthy a then a else b.

(** Truthiness of a [string]. *)
Definition nonempty (s : string) : bool :=
  match s with EmptyString => false | String _ _ => true end.

(** [message.document?.mime_type?.startsWith("image/")] *)
Definition is_image (d : Document) : bool :=
  match mime_type d with
  | Some m => String.prefix "image/" m
  | None => false
  end.

(** The file the image of a message is taken from: the last photo size,
    else a document whose type is an image. *)
Definition image_file (m : Message) : option string :=
  match photo m with
  | Some (p :: ps) => Some (file_id (List.last ps p))
  | _ =>
      match document m with
      | Some d => if is_image d then Some (doc_file_id d) else None
      | None => None
      end
  end.

(** [`[Image: ${title}\n${description}]`] *)
Definition image_text (title description : JsString.t) : JsString.t :=
  JsString.of_string "[Image: " ++ title ++ [JsString.newline] ++ description
    ++ JsString.of_string "]".

(** [processImage(message)]; [None] is [null], [Some d] is
    [{ description: d }]. *)
Definition processImage (m : Message) : Async.t World (option JsString.t) :=
  Async.try_catch
    (let* imageUrl :=
       match image_file m with
       | Some f => let* fileLink := getFileLink f in Async.ret (Some fileLink)
       | None => Async.ret None
       end in
     match imageUrl with
     | Some url =>
         if nonempty url
         then let* described := describeImage url in
              Async.ret (Some (image_text (fst described) (snd described)))
         else Async.ret None
     | None => Async.ret None
     end)
    (fun error => let* _ := console_error error in Async.ret None).

(** The text content of a message: its text, else a non-empty caption. *)
Definition messageText (m : Message) : JsString.t :=
  match text m with
  | Some t => t
  | None =>
      match caption m with
      | Some c => if JsString.truthy c then c else []
      | None => []
      end
  end.

(** [imageInfo ? `${messageText} ${imageInfo.description}` : messageText] *)
Definition fullText (m : Message) (imageInfo : option JsString.t) : JsString.t :=
  match imageInfo with
  | Some description => messageText m ++ [32%N] ++ description
  | None => messageText m
  end.

Definition apology : JsString.t :=
  JsString.of_string "Sorry, I encountered an error while processing your message.".

Definition handler_apology : JsString.t :=
  JsString.of_string "An error occurred while processing your message.".

(** [MessageManager.handleMessage(ctx)] *)
Definition handleMessage (ctx : Context) : Async.t World unit :=
  match message ctx, from ctx with
  | Some m, Some sender =>
      let* w := Async.get in
      let datestr := replace_colons (utc_at (services w) (moment w)) in
      Async.try_catch
        (let userId := stringToUuid (services w) (pretty (id sender)) in
         let userName :=
           or_else (match username sender with Some u => u | None => [] end)
             (or_else (first_name sender) (JsString.of_string "Unknown User")) in
         let* imageInfo := processImage m in
         let full := fullText m imageInfo in
         if negb (JsString.truthy full) then Async.ret tt
         else
           let* _ :=
             log_to_file (JsString.of_string "telegram_message_" ++ datestr)
               (JsString.of_string "From " ++ userName ++ JsString.of_string ": "
                  ++ full ++ JsString.of_string " in "
                  ++ or_else (match chat ctx with Some c => chat_type c | None => [] end)
                       (JsString.of_string "Unknown Chat")) in
           let* w' := Async.get in
           let* _ :=
             cache_set (JsString.of_string "last_message_" ++ userId) full
               (now_at (services w') (moment w')) in
           reply full)
        (fun error =>
           let* _ := console_error error in
           reply apology)
  | _, _ => Async.ret tt
  end.

(** The handler that [TelegramClient.setupHandlers] installs for
    ["message"]. *)
Definition on_message (ctx : Context) : Async.t World unit :=
  Async.try_catch
    (handleMessage ctx)
    (fun error =>
       let* _ := console_error error in
       reply handler_apology).

(** The world after the further calls [evs]. *)
Definition extend (w : World) (evs : list Event) : World :=
  {| services := services w; log := log w ++ evs |}.

(** The calls made between two worlds. *)
Definition events_since (w w' : World) : list Event :=
  drop (length (log w)) (log w').

(** The texts sent to the chat by the given calls. *)
Definition replies (evs : list Event) : list JsString.t :=
  flat_map (fun ev => match ev with EvReply t => [t] | _ => [] end) evs.

(** The message carries nothing to look at: no photo size and no
    document that is an image. *)
Definition no_image (m : Message) : Prop := image_file m = None.

End Telegram.

(* ===================================================================== *)
(** ** TokenProvider.getSolanaTokenAddresses; balances per owner *)
(* ===================================================================== *)

Module TokenProfiles.

Record Link := {
  link_type : option string;
  link_label : option string;
  link_url : string;
}.

Record TokenProfile := {
  url : string;
  chainId : string;
  tokenAddress : string;
  icon : string;
  header : string;
  openGraph : string;
  description : string;
  links : list Link;
}.

(** The network and the console, with every GET made so far. *)
Record Web := {
  get_at : nat -> string -> Async.outcome (list TokenProfile);
  gets : list (string * Async.outcome (list TokenProfile));
  console : list Async.Error;
}.

(** [axios.get(u)], read through [response.data] *)
Definition axios_get (u : string) : Async.t Web (list TokenProfile) :=
  fun w =>
    let answer := get_at w (length (gets w)) u in
    (answer,
     {| get_at := get_at w; gets := gets w ++ [(u, answer)]; console := console w |}).

(** [console.error(..., error)] *)
Definition console_error (e : Async.Error) : Async.t Web unit :=
  Async.modify (fun w =>
    {| get_at := get_at w; gets := gets w; console := console w ++ [e] |}).

Definition apiUrl : string := "https://api.dexscreener.com/token-profiles/latest/v1".

Section WithText.
(** [String.prototype.toLowerCase] *)
Variable toLowerCase : string -> string.

(** [token => token.chainId.toLowerCase() === 'solana'] *)
Definition on_solana (token : TokenProfile) : bool :=
  String.eqb (toLowerCase (chainId token)) "solana".

Definition getSolanaTokenAddresses : Async.t Web (list string) :=
  Async.try_catch
    (let* data := axios_get apiUrl in
     let solanaTokens := List.filter on_solana data in
     let solanaTokenAddresses := map tokenAddress solanaTokens in
     Async.ret solanaTokenAddresses)
    (fun error => let* _ := console_error error in Async.ret []).

End WithText.

(** The GETs made between two states. *)
Definition gets_since (w w' : Web) : list (string * Async.outcome (list TokenProfile)) :=
  drop (length (gets w)) (gets w').

End TokenProfiles.

Module TokenProviderTotals.
Import TokenProvider.

(** The token accounts carried by the answers, in the order they were read. *)
Definition accounts_seen
    (made : list (Request * Async.outcome (option ResponseData))) : list TokenAccount :=
  flat_map (fun exchange =>
              match snd exchange with
              | Async.Fulfilled data =>
                  match accounts_of data with
                  | Some accounts => accounts
                  | None => []
                  end
              | Async.Rejected _ => []
              end) made.

Section WithFloat.
Context `{JsFloat}.

(** What owner [o] holds after one more account, given what it held. *)
Definition credit (o : string) (held : option number) (account : TokenAccount)
  : option number :=
  if String.eqb o (owner account)
  then Some (match held with
             | Some h => number_add h (parseFloat (amount account))
             | None => parseFloat (amount account)
             end)
  else held.

(** The amounts of owner [o] among the accounts, added from left to right. *)
Definition total_of (o : string) (accounts : list TokenAccount) : option number :=
  fold_left (credit o) accounts None.

End WithFloat.
End TokenProviderTotals.

(* ===================================================================== *)
(** ** Further inputs used in examples *)
(* ===================================================================== *)

Module Fixtures.

(** A line that fills a whole message. *)
Definition long_line : JsString.t := replicate 4096 97%N.

(** That line, a line break and a short second line. *)
Definition long_then_short : JsString.t :=
  long_line ++ [JsString.newline] ++ JsString.of_string "b".

(** A network that is down. *)
Definition network_down : TokenProvider.Network :=
  fun _ _ => Async.Rejected "connect ECONNREFUSED"%string.

(** One page naming [bob] between two mentions of [alice], then nothing. *)
Definition network_alice_bob : TokenProvider.Network :=
  fun n _ =>
    if (n <? 1)%nat
    then Sample.page_of
           [ {| TokenProvider.owner := "alice"; TokenProvider.amount := "2" |};
             {| TokenProvider.owner := "bob"; TokenProvider.amount := "3" |};
             {| TokenProvider.owner := "alice"; TokenProvider.amount := "4" |} ]
    else Sample.page_of [].

(** Services that answer every call; every image is a cat. *)
Definition services_ok : Telegram.Services :=
  {| Telegram.getFileLink_at := fun _ f => Async.Fulfilled (String.append "https://files/" f);
     Telegram.describeImage_at :=
       fun _ _ => Async.Fulfilled (JsString.of_string "Cat", JsString.of_string "A cat.");
     Telegram.reply_at := fun _ _ => Async.Fulfilled tt;
     Telegram.log_to_file_at := fun _ _ _ => Async.Fulfilled tt;
     Telegram.cache_set_at := fun _ _ _ _ => Async.Fulfilled tt;
     Telegram.utc_at := fun _ => JsString.of_string "Tue, 03 Nov 2026 10:20:30 GMT";
     Telegram.now_at := fun _ => 1793701230000;
     Telegram.stringToUuid := fun s => JsString.of_string s |}.

(** The same services with a chat that cannot be written to. *)
Definition services_mute : Telegram.Services :=
  {| Telegram.getFileLink_at := Telegram.getFileLink_at services_ok;
     Telegram.describeImage_at := Telegram.describeImage_at services_ok;
     Telegram.reply_at := fun _ _ => Async.Rejected "403: bot was blocked by the user"%string;
     Telegram.log_to_file_at := Telegram.log_to_file_at services_ok;
     Telegram.cache_set_at := Telegram.cache_set_at services_ok;
     Telegram.utc_at := Telegram.utc_at services_ok;
     Telegram.now_at := Telegram.now_at services_ok;
     Telegram.stringToUuid := Telegram.stringToUuid services_ok |}.

Definition telegram_world (s : Telegram.Services) : Telegram.World :=
  {| Telegram.services := s; Telegram.log := [] |}.

Definition sender : Telegram.User :=
  {| Telegram.id := 42; Telegram.username := None;
     Telegram.first_name := JsString.of_string "Ada" |}.

Definition context_of (m : Telegram.Message) : Telegram.Context :=
  {| Telegram.message := Some m; Telegram.from := Some sender; Telegram.chat := None |}.

(** A text message, a photo with a caption, and a sticker-like message
    that carries neither text nor image. *)
Definition text_message : Telegram.Message :=
  {| Telegram.text := Some (JsString.of_string "hi"); Telegram.caption := None;
     Telegram.photo := None; Telegram.document := None |}.

Definition photo_message : Telegram.Message :=
  {| Telegram.text := None; Telegram.caption := Some (JsString.of_string "look");
     Telegram.photo := Some [ {| Telegram.file_id := "small" |};
                              {| Telegram.file_id := "large" |} ];
     Telegram.document := None |}.

Definition bare_message : Telegram.Message :=
  {| Telegram.text := None; Telegram.caption := None;
     Telegram.photo := None; Telegram.document := None |}.

(** Lower case for the letters of the Latin alphabet. *)
Definition ascii_lower (c : ascii) : ascii :=
  let n := N_of_ascii c in
  if ((65 <=? n) && (n <=? 90))%N then ascii_of_N (n + 32) else c.

Fixpoint lower (s : string) : string :=
  match s with
  | EmptyString => EmptyString
  | String c rest => String (ascii_lower c) (lower rest)
  end.

Definition profile (chain address : string) : TokenProfiles.TokenProfile :=
  {| TokenProfiles.url := EmptyString; TokenProfiles.chainId := chain;
     TokenProfiles.tokenAddress := address; TokenProfiles.icon := EmptyString;
     TokenProfiles.header := EmptyString; TokenProfiles.openGraph := EmptyString;
     TokenProfiles.description := EmptyString; TokenProfiles.links := [] |}.

(** A site that lists three profiles, two of them on Solana. *)
Definition web_listing : TokenProfiles.Web :=
  {| TokenProfiles.get_at :=
       fun _ _ => Async.Fulfilled [ profile "solana" "So1"; profile "ethereum" "0xabc";
                                    profile "Solana" "So2" ];
     TokenProfiles.gets := []; TokenProfiles.console := [] |}.

(** A site that is down. *)
Definition web_down : TokenProfiles.Web :=
  {| TokenProfiles.get_at := fun _ _ => Async.Rejected "Request failed with status code 503"%string;
     TokenProfiles.gets := []; TokenProfiles.console := [] |}.

(** A gateway that answers every request with 502. *)
Definition http_502 : ImageDescription.Http :=
  {| ImageDescription.fetch_at :=
       fun _ _ => Async.Fulfilled
         {| ImageDescription.ok := false; ImageDescription.status := 502;
            ImageDescription.statusText := "Bad Gateway";
            ImageDescription.content := Async.Rejected "Unexpected token <"%string |};
     ImageDescription.fetched := []; ImageDescription.console := [] |}.

End Fixtures.

(* ===================================================================== *)
(** ** Properties of JavaScript numbers *)
(* ===================================================================== *)

Module JsNumberFacts.
Import JsNumber.

Lemma round_small n : 0 <= n < 2 ^ 53 -> round_to_double n = n.
Proof.
  intros [Hlo Hhi]. unfold round_to_double, mantissa_bits.
  destruct (Z.eq_dec n 0) as [->|Hn]; [reflexivity|].
  assert (Z.log2 n < 53) by (apply Z.log2_lt_pow2; lia).
  destruct (Z.leb_spec (Z.log2 n - (53 - 1)) 0); [reflexivity | lia].
Qed.

Lemma round_two_pow_53 : round_to_double (2 ^ 53) = 2 ^ 53.
Proof. vm_compute. reflexivity. Qed.

Lemma round_upto n : 0 <= n <= 2 ^ 53 -> round_to_double n = n.
Proof.
  intros [Hlo Hhi]. destruct (Z.eq_dec n (2 ^ 53)) as [->|Hne].
  - apply round_two_pow_53.
  - apply round_small. lia.
Qed.

(** Known roundings: odd integers just above [2^53] go to the neighbour
    with the even significand, and the largest [u64] goes up to [2^64]. *)
Example round_9007199254740993 : round_to_double 9007199254740993 = 9007199254740992.
Proof. vm_compute. reflexivity. Qed.

Example round_9007199254740995 : round_to_double 9007199254740995 = 9007199254740996.
Proof. vm_compute. reflexivity. Qed.

Example round_u64_max : round_to_double u64_max = 2 ^ 64.
Proof. vm_compute. reflexivity. Qed.

(** Below [2^53] rounding changes nothing, also for what is not positive. *)
Lemma round_below n : n < 2 ^ 53 -> round_to_double n = n.
Proof.
  intros Hn. destruct (Z.le_gt_cases 0 n) as [Hpos|Hneg]; [apply round_small; lia|].
  unfold round_to_double, mantissa_bits.
  rewrite Z.log2_nonpos by lia. reflexivity.
Qed.

(** From [2^53] on, rounding never goes below [2^53]. *)
Lemma round_large n : 2 ^ 53 <= n -> 2 ^ 53 <= round_to_double n.
Proof.
  intros Hn. unfold round_to_double, mantissa_bits.
  assert (Hlog : 53 <= Z.log2 n) by (apply Z.log2_le_pow2; lia).
  destruct (Z.leb_spec (Z.log2 n - (53 - 1)) 0) as [Hsmall|He]; [lia|].
  set (e := Z.log2 n - (53 - 1)) in *.
  set (q := Z.shiftr n e).
  assert (Hq : 2 ^ 52 <= q).
  { unfold q. rewrite Z.shiftr_div_pow2 by lia.
    apply Z.div_le_lower_bound; [apply Z.pow_pos_nonneg; lia|].
    rewrite <- Z.pow_add_r by lia.
    replace (e + 52) with (Z.log2 n) by (unfold e; lia).
    apply Z.log2_spec. lia. }
  assert (Hpow : 2 <= 2 ^ e).
  { change 2 with (2 ^ 1) at 1. apply Z.pow_le_mono_r; lia. }
  match goal with
  | |- _ <= Z.shiftl ?q' e => assert (Hq' : q <= q') by (destruct (_ || _); lia)
  end.
  rewrite Z.shiftl_mul_pow2 by lia. nia.
Qed.

Lemma round_positive n : 1 <= n -> 1 <= round_to_double n.
Proof.
  intros Hn. destruct (Z.lt_ge_cases n (2 ^ 53)) as [Hsmall|Hlarge].
  - rewrite round_small; lia.
  - pose proof (round_large n Hlarge). lia.
Qed.

(** An incremented index that is still a safe integer is the exact
    successor: past [2^53 - 2] the increment leaves the safe range. *)
Lemma increment_safe n :
  BigInt (add (Number n) 1) <= MAX_SAFE_INTEGER -> BigInt (add (Number n) 1) = n + 1.
Proof.
  unfold BigInt, add, Number, MAX_SAFE_INTEGER. intros Hsafe.
  destruct (Z.lt_ge_cases n (2 ^ 53)) as [Hsmall|Hlarge].
  - rewrite (round_below n Hsmall) in *.
    destruct (Z.lt_ge_cases (n + 1) (2 ^ 53)) as [Hnext|Hnext];
      [by apply round_below|].
    pose proof (round_large (n + 1) Hnext). lia.
  - pose proof (round_large n Hlarge) as Hx.
    pose proof (round_large (round_to_double n + 1) ltac:(lia)). lia.
Qed.

(** The increment used by [sendTx] is exact below [2^53]. *)
Lemma increment_exact n :
  0 <= n < 2 ^ 53 -> BigInt (add (Number n) 1) = n + 1.
Proof.
  intros H. unfold BigInt, add, Number.
  rewrite (round_small n H). apply round_upto. lia.
Qed.

(** At [2^53] the increment is absorbed by rounding. *)
Lemma increment_absorbed : BigInt (add (Number (2 ^ 53)) 1) = 2 ^ 53.
Proof. vm_compute. reflexivity. Qed.

End JsNumberFacts.

(* ===================================================================== *)
(** ** Properties of splitMessage *)
(* ===================================================================== *)

Module MessageManagerFacts.
Import MessageManager.

Lemma length_app (a b : JsString.t) :
  JsString.length (a ++ b) = JsString.length a + JsString.length b.
Proof. unfold JsString.length. rewrite List.length_app. lia. Qed.

Lemma length_nonneg (a : JsString.t) : 0 <= JsString.length a.
Proof. unfold JsString.length. lia. Qed.

Lemma truthy_length (a : JsString.t) :
  JsString.truthy a = true <-> 0 < JsString.length a.
Proof.
  unfold JsString.length. destruct a; simpl; split; intros; try lia; try congruence.
Qed.

Lemma push_if_truthy_ok cs c :
  Forall chunk_ok cs -> JsString.length c <= MAX_MESSAGE_LENGTH ->
  Forall chunk_ok (push_if_truthy cs c).
Proof.
  intros Hcs Hc. unfold push_if_truthy.
  destruct (JsString.truthy c) eqn:Ht; [|exact Hcs].
  apply Forall_app. split; [exact Hcs|].
  constructor; [|constructor]. split; [by apply truthy_length | exact Hc].
Qed.

Lemma loop_body_ok st line :
  locals_ok st -> JsString.length line <= MAX_MESSAGE_LENGTH ->
  locals_ok (loop_body st line).
Proof.
  intros [Hcs Hcur] Hline. unfold loop_body.
  destruct (Z.leb_spec (JsString.length (currentChunk st) + JsString.length line + 1)
              MAX_MESSAGE_LENGTH) as [Hfit|Hover]; split; simpl.
  - exact Hcs.
  - rewrite !length_app.
    destruct (JsString.truthy (currentChunk st)) eqn:Ht.
    + change (JsString.length [JsString.newline]) with 1. lia.
    + destruct (currentChunk st); [|discriminate Ht].
      change (JsString.length []) with 0. lia.
  - by apply push_if_truthy_ok.
  - exact Hline.
Qed.

Lemma fold_loop_body_ok lines : forall st,
  locals_ok st ->
  Forall (fun l => JsString.length l <= MAX_MESSAGE_LENGTH) lines ->
  locals_ok (fold_left loop_body lines st).
Proof.
  induction lines as [|l ls IH]; intros st Hst Hls; simpl; [exact Hst|].
  inversion Hls; subst. apply IH; [by apply loop_body_ok | assumption].
Qed.

(** C9. If every newline-separated line of the text has at most 4096
    code units, then every chunk returned by [splitMessage] has at
    most 4096 code units and is non-empty. *)
Theorem splitMessage_chunks_bounded (text : JsString.t) :
  Forall (fun l => JsString.length l <= MAX_MESSAGE_LENGTH)
         (JsString.split_newline text) ->
  Forall (fun c => JsString.length c <= MAX_MESSAGE_LENGTH /\ c <> [])
         (splitMessage text).
Proof.
  intros Hlines. unfold splitMessage.
  destruct (fold_loop_body_ok (JsString.split_newline text) (Locals [] [])) as [Hcs Hcur].
  - split; [constructor | unfold JsString.length, MAX_MESSAGE_LENGTH; simpl; lia].
  - exact Hlines.
  - eapply Forall_impl; [apply push_if_truthy_ok; eassumption|].
    intros c [Hpos Hle]. split; [exact Hle|].
    intros ->. unfold JsString.length in Hpos. simpl in Hpos. lia.
Qed.


(** An empty text yields no chunk at all. *)
Example splitMessage_empty : splitMessage [] = [].
Proof. reflexivity. Qed.

(** A single line of 4097 code units comes back whole: the bound on the
    lines is needed. *)
Example splitMessage_long_line :
  splitMessage (replicate 4097 97%N) = [replicate 4097 97%N].
Proof. vm_compute. reflexivity. Qed.

(** Three lines of 2000 letters give a chunk of 4001 and one of 2000. *)
Lemma splitMessage_chunks_bounded_witness :
  Forall (fun c => JsString.length c <= MAX_MESSAGE_LENGTH /\ c <> [])
         (splitMessage Sample.three_lines) /\
  map JsString.length (splitMessage Sample.three_lines) = [4001; 2000].
Proof.
  split; [|vm_compute; reflexivity].
  apply (splitMessage_chunks_bounded Sample.three_lines).
  repeat (constructor; [by vm_compute|]). constructor.
Defined.

End MessageManagerFacts.

(* ===================================================================== *)
(** ** Properties of MultiSigService *)
(* ===================================================================== *)

Module MultiSigServiceFacts.
Import Solana Squads MultiSigService.
Import Async (Fulfilled, Rejected).

(** Unfold one method down to the ledger's answers. *)
Ltac run :=
  cbv [constructor createMultiSig addSpendingLimit sendTx executeTx
       io get_this built set_configTreasury proposalCreate
       World.getLatestBlockhash World.ProgramConfig_fromAccountAddress
       World.Multisig_fromAccountAddress World.vaultTransactionExecute
       World.Keypair_generate World.console_log World.request
       Async.bind Async.ret Async.modify Async.get
       this world].

Lemma events_since_app (w w' : World.t) evs :
  World.log w' = World.log w ++ evs -> World.events_since w w' = evs.
Proof. intros Hlog. unfold World.events_since. rewrite Hlog. apply drop_app_length. Qed.

Section WithSdk.
Context `{Sdk}.

(** What a fulfilled [sendTx] has read, returned and logged. *)
Lemma sendTx_fulfilled ix st r st' :
  sendTx ix st = (Fulfilled r, st') ->
  exists b m,
    World.latestBlockhash_at (World.ledger (world st)) (World.clock (world st))
      = Fulfilled b /\
    World.multisig_at (World.ledger (world st)) (S (World.clock (world st)))
      (multisigPda (this st)) = Fulfilled m /\
    r = {| transfer_ix := IxVaultTransactionCreate
             {| vc_multisigPda := multisigPda (this st);
                vc_transactionIndex := next_index m;
                vc_creator := agent (this st);
                vc_vaultIndex := 0;
                vc_ephemeralSigners := 0;
                vc_transactionMessage :=
                  {| payerKey := agent (this st); recentBlockhash := b;
                     instructions := ix |} |};
           create_ix := IxProposalCreate
             {| pc_multisigPda := multisigPda (this st);
                pc_transactionIndex := next_index m;
                pc_creator := agent (this st) |};
           approve_ix := IxProposalApprove
             {| pa_multisigPda := multisigPda (this st);
                pa_member := agent (this st);
                pa_transactionIndex := next_index m |} |} /\
    this st' = this st /\
    World.events_since (world st) (world st') =
      [ World.EvGetLatestBlockhash (connection (this st));
        World.EvConsoleLog "step 1";
        World.EvFetchMultisig (connection (this st)) (multisigPda (this st));
        World.EvConsoleLog "step 2"; World.EvConsoleLog "step 3";
        World.EvConsoleLog "step 4"; World.EvConsoleLog "step 5";
        World.EvConsoleLog "step 6" ].
Proof.
  destruct st as [self w]. run. simpl.
  destruct (World.latestBlockhash_at _ _) as [b|e] eqn:Hb; simpl; [|discriminate].
  destruct (World.multisig_at _ _ _) as [m|e] eqn:Hm; simpl; [|discriminate].
  fold (next_index m).
  destruct (JsNumber.MAX_SAFE_INTEGER <? next_index m); simpl; [discriminate|].
  intros [= <- <-]. exists b, m. repeat split; try assumption.
  apply events_since_app. simpl. by rewrite <- !app_assoc.
Qed.

(** A fulfilled [sendTx] computed an index the library's [proposalCreate]
    accepts: a safe integer. *)
Lemma sendTx_fulfilled_safe ix st r st' :
  sendTx ix st = (Fulfilled r, st') ->
  exists m,
    World.multisig_at (World.ledger (world st)) (S (World.clock (world st)))
      (multisigPda (this st)) = Fulfilled m /\
    next_index m <= JsNumber.MAX_SAFE_INTEGER.
Proof.
  destruct st as [self w]. run. simpl.
  destruct (World.latestBlockhash_at _ _) as [b|e] eqn:Hb; simpl; [|discriminate].
  destruct (World.multisig_at _ _ _) as [m|e] eqn:Hm; simpl; [|discriminate].
  fold (next_index m).
  destruct (Z.ltb_spec JsNumber.MAX_SAFE_INTEGER (next_index m)); simpl; [discriminate|].
  intros _. by exists m.
Qed.

(** What [sendTx] does when the blockhash request is rejected. *)
Lemma sendTx_blockhash_rejected ix st e :
  World.latestBlockhash_at (World.ledger (world st)) (World.clock (world st))
    = Rejected e ->
  fst (sendTx ix st) = Rejected e /\
  World.events_since (world st) (world (snd (sendTx ix st))) =
    [ World.EvGetLatestBlockhash (connection (this st)) ] /\
  this (snd (sendTx ix st)) = this st.
Proof.
  destruct st as [self w]. run. simpl. intros ->. simpl.
  repeat split. by apply events_since_app.
Qed.

(** What [sendTx] does when the account fetch is rejected. *)
Lemma sendTx_fetch_rejected ix st b e :
  World.latestBlockhash_at (World.ledger (world st)) (World.clock (world st))
    = Fulfilled b ->
  World.multisig_at (World.ledger (world st)) (S (World.clock (world st)))
    (multisigPda (this st)) = Rejected e ->
  fst (sendTx ix st) = Rejected e /\
  World.events_since (world st) (world (snd (sendTx ix st))) =
    [ World.EvGetLatestBlockhash (connection (this st));
      World.EvConsoleLog "step 1";
      World.EvFetchMultisig (connection (this st)) (multisigPda (this st)) ] /\
  this (snd (sendTx ix st)) = this st.
Proof.
  destruct st as [self w]. run. simpl. intros -> Hm. simpl. rewrite Hm. simpl.
  repeat split. apply events_since_app. simpl. by rewrite <- !app_assoc.
Qed.

(** What [sendTx] does when both requests are answered and the index it
    computed is above [Number.MAX_SAFE_INTEGER]: [proposalCreate] throws
    after the third log line, and nothing is returned. *)
Lemma sendTx_index_refused ix st b m :
  World.latestBlockhash_at (World.ledger (world st)) (World.clock (world st))
    = Fulfilled b ->
  World.multisig_at (World.ledger (world st)) (S (World.clock (world st)))
    (multisigPda (this st)) = Fulfilled m ->
  JsNumber.MAX_SAFE_INTEGER < next_index m ->
  fst (sendTx ix st) = Rejected "transactionIndex is too large" /\
  World.events_since (world st) (world (snd (sendTx ix st))) =
    [ World.EvGetLatestBlockhash (connection (this st));
      World.EvConsoleLog "step 1";
      World.EvFetchMultisig (connection (this st)) (multisigPda (this st));
      World.EvConsoleLog "step 2"; World.EvConsoleLog "step 3" ] /\
  this (snd (sendTx ix st)) = this st.
Proof.
  destruct st as [self w]. run. simpl. intros -> Hm Hlarge. simpl. rewrite Hm. simpl.
  fold (next_index m).
  destruct (Z.ltb_spec JsNumber.MAX_SAFE_INTEGER (next_index m)); [|lia]. simpl.
  repeat split. apply events_since_app. simpl. by rewrite <- !app_assoc.
Qed.

(** What [sendTx] does when both requests are answered and the index it
    computed is a safe integer: it fulfils. *)
Lemma sendTx_index_accepted ix st b m :
  World.latestBlockhash_at (World.ledger (world st)) (World.clock (world st))
    = Fulfilled b ->
  World.multisig_at (World.ledger (world st)) (S (World.clock (world st)))
    (multisigPda (this st)) = Fulfilled m ->
  next_index m <= JsNumber.MAX_SAFE_INTEGER ->
  exists r st', sendTx ix st = (Fulfilled r, st').
Proof.
  destruct st as [self w]. run. simpl. intros -> Hm Hsafe. simpl. rewrite Hm. simpl.
  fold (next_index m).
  destruct (Z.ltb_spec JsNumber.MAX_SAFE_INTEGER (next_index m)); [lia|]. simpl.
  eauto.
Qed.

(** [sendTx] either fulfils, or rejects with the rejection of one of its
    two requests, or rejects because [proposalCreate] refused the index. *)
Lemma sendTx_cases ix st :
  (exists r st', sendTx ix st = (Fulfilled r, st')) \/
  (exists e, World.latestBlockhash_at (World.ledger (world st))
               (World.clock (world st)) = Rejected e) \/
  (exists b e, World.latestBlockhash_at (World.ledger (world st))
                 (World.clock (world st)) = Fulfilled b /\
               World.multisig_at (World.ledger (world st))
                 (S (World.clock (world st))) (multisigPda (this st)) = Rejected e) \/
  (exists b m, World.latestBlockhash_at (World.ledger (world st))
                 (World.clock (world st)) = Fulfilled b /\
               World.multisig_at (World.ledger (world st))
                 (S (World.clock (world st))) (multisigPda (this st)) = Fulfilled m /\
               JsNumber.MAX_SAFE_INTEGER < next_index m).
Proof.
  destruct (World.latestBlockhash_at (World.ledger (world st)) (World.clock (world st)))
    as [b|e] eqn:Hb; [|right; left; eauto].
  destruct (World.multisig_at (World.ledger (world st)) (S (World.clock (world st)))
              (multisigPda (this st))) as [m|e] eqn:Hm; [|right; right; left; eauto].
  destruct (Z.le_gt_cases (next_index m) JsNumber.MAX_SAFE_INTEGER) as [Hsafe|Hlarge].
  - left. exact (sendTx_index_accepted ix st b m Hb Hm Hsafe).
  - right; right; right. exists b, m. repeat split; assumption || lia.
Qed.

(** The single request of [createMultiSig] and what follows from its answer. *)
Lemma createMultiSig_run st :
  World.events_since (world st) (world (snd (createMultiSig st))) =
    [ World.EvFetchProgramConfig (connection (this st)) getProgramConfigPda ] /\
  identity (this (snd (createMultiSig st))) = identity (this st) /\
  match World.programConfig_at (World.ledger (world st)) (World.clock (world st))
          getProgramConfigPda with
  | Rejected e => fst (createMultiSig st) = Rejected e /\
                  this (snd (createMultiSig st)) = this st
  | Fulfilled cfg =>
      fst (createMultiSig st) = Fulfilled
        {| cm_ix := IxMultisigCreateV2
             {| mc_createKey := publicKey (createKey (this st));
                mc_creator := publicKey (feePayer (this st));
                mc_multisigPda := multisigPda (this st);
                mc_configAuthority := publicKey (feePayer (this st));
                mc_timeLock := 0;
                mc_members :=
                  [ {| key := publicKey (feePayer (this st));
                       permissions := Permissions_all |};
                    {| key := agent (this st); permissions := Permissions_all |} ];
                mc_threshold := 1;
                mc_treasury := Some (pc_treasury cfg);
                mc_rentCollector := publicKey (feePayer (this st)) |};
           cm_create_key := createKey (this st) |} /\
      configTreasury (this (snd (createMultiSig st))) = Some (pc_treasury cfg)
  end.
Proof.
  destruct st as [self w]. run. simpl.
  destruct (World.programConfig_at _ _ _) as [cfg|e]; simpl;
    (split; [by apply events_since_app|]); repeat split.
Qed.

(** [addSpendingLimit] never rejects; it draws one keypair. *)
Lemma addSpendingLimit_run st :
  let k := publicKey (World.keypair_at (World.ledger (world st))
                        (World.entropy (world st))) in
  addSpendingLimit st =
    (Fulfilled
       {| asl_ix := IxMultisigAddSpendingLimit
            {| sl_multisigPda := multisigPda (this st);
               sl_configAuthority := publicKey (feePayer (this st));
               sl_spendingLimit := getSpendingLimitPda (multisigPda (this st)) k;
               sl_rentPayer := publicKey (feePayer (this st));
               sl_createKey := k;
               sl_vaultIndex := 0;
               sl_mint := spending_limit_mint;
               sl_amount := 1000000;
               sl_period := Day;
               sl_members := [agent (this st)];
               sl_destinations := [] |};
          asl_create_key := k |},
     {| this := this st;
        world := World.draw (World.record World.EvKeypairGenerate (world st)) |}).
Proof. destruct st as [self w]. reflexivity. Qed.

(** The single library call of [executeTx]. *)
Lemma executeTx_run st :
  let args := {| ve_connection := connection (this st);
                 ve_multisigPda := multisigPda (this st);
                 ve_transactionIndex := 1;
                 ve_member := agent (this st) |} in
  World.events_since (world st) (world (snd (executeTx st))) =
    [ World.EvVaultTransactionExecute args ] /\
  this (snd (executeTx st)) = this st /\
  match World.lookupTables_at (World.ledger (world st)) (World.clock (world st)) args with
  | Fulfilled tables =>
      fst (executeTx st) = Fulfilled {| instruction := IxVaultTransactionExecute args;
                                        lookupTableAccounts := tables |}
  | Rejected e => fst (executeTx st) = Rejected e
  end.
Proof.
  destruct st as [self w]. run. simpl. unfold JsNumber.BigInt.
  destruct (World.lookupTables_at _ _ _) as [tables|e]; simpl;
    (split; [by apply events_since_app|]); repeat split.
Qed.

(** C1.  Whenever [sendTx] fulfils, it has fetched the multisig account
    [m] during that call, the index it computed from the fetched one is
    [m.transactionIndex + 1], and its three instructions (vault
    transaction create, proposal create, proposal approve) all carry
    [m.transactionIndex + 1]. *)
Theorem sendTx_next_index ix st r st' :
  sendTx ix st = (Fulfilled r, st') ->
  exists m,
    World.multisig_at (World.ledger (world st)) (S (World.clock (world st)))
      (multisigPda (this st)) = Fulfilled m /\
    next_index m = transactionIndex m + 1 /\
    index_of (transfer_ix r) = Some (transactionIndex m + 1) /\
    index_of (create_ix r) = Some (transactionIndex m + 1) /\
    index_of (approve_ix r) = Some (transactionIndex m + 1).
Proof.
  intros Hrun. destruct (sendTx_fulfilled ix st r st' Hrun) as (b & m & _ & Hm & -> & _).
  destruct (sendTx_fulfilled_safe ix st _ st' Hrun) as (m' & Hm' & Hsafe).
  assert (m' = m) as -> by congruence.
  apply JsNumberFacts.increment_safe in Hsafe. fold (next_index m) in Hsafe.
  exists m. simpl. rewrite Hsafe. repeat split; assumption.
Qed.

(** C2.  Whatever the service and the world are, [executeTx] calls the
    library's execute builder exactly once, with transaction index 1; the
    instruction it resolves to carries index 1, also right after a
    [sendTx] that tagged its proposal with another index. *)
Theorem executeTx_index_hardcoded st :
  World.events_since (world st) (world (snd (executeTx st))) =
    [ World.EvVaultTransactionExecute
        {| ve_connection := connection (this st);
           ve_multisigPda := multisigPda (this st);
           ve_transactionIndex := 1;
           ve_member := agent (this st) |} ] /\
  (forall r, fst (executeTx st) = Fulfilled r -> index_of (instruction r) = Some 1) /\
  (forall ix st0 sent r,
     sendTx ix st0 = (Fulfilled sent, st) ->
     fst (executeTx st) = Fulfilled r ->
     index_of (instruction r) = Some 1).
Proof.
  destruct (executeTx_run st) as (Hev & _ & Hres).
  assert (Hone : forall r, fst (executeTx st) = Fulfilled r ->
                           index_of (instruction r) = Some 1).
  { intros r Hr. simpl in Hres.
    destruct (World.lookupTables_at _ _ _); rewrite Hres in Hr; [|discriminate].
    by injection Hr as <-. }
  split; [exact Hev|]. split; [exact Hone|]. intros ix st0 sent r _. apply Hone.
Qed.

(** C3.  Two constructions with the same create key yield the same
    multisig address, whatever the connection, fee payer, agent and world
    of either construction: the address is the library's derivation
    applied to the create key's public key. *)
Theorem constructor_same_createKey_same_pda
    (ck : Keypair) c1 fp1 a1 w1 c2 fp2 a2 w2 :
  exists s1 s2,
    fst (constructor c1 fp1 a1 (Some ck) w1) = Fulfilled s1 /\
    fst (constructor c2 fp2 a2 (Some ck) w2) = Fulfilled s2 /\
    multisigPda s1 = multisigPda s2 /\
    multisigPda s1 = getMultisigPda (publicKey ck).
Proof. do 2 eexists. repeat split. Qed.


(** C5.  Whenever [createMultiSig] fulfils, the program config [cfg] was
    read during that call and the instruction lists exactly two members,
    the fee payer and the agent, each with [Permissions.all()], has
    threshold 1, and has [cfg.treasury] as treasury, whatever treasury an
    earlier call left in the service. *)
Theorem createMultiSig_members_threshold_treasury st r st' :
  createMultiSig st = (Fulfilled r, st') ->
  exists cfg a,
    World.programConfig_at (World.ledger (world st)) (World.clock (world st))
      getProgramConfigPda = Fulfilled cfg /\
    cm_ix r = IxMultisigCreateV2 a /\
    mc_members a =
      [ {| key := publicKey (feePayer (this st)); permissions := Permissions_all |};
        {| key := agent (this st); permissions := Permissions_all |} ] /\
    mc_threshold a = 1 /\
    mc_treasury a = Some (pc_treasury cfg).
Proof.
  intros Hrun. destruct (createMultiSig_run st) as (_ & _ & Hres).
  rewrite Hrun in Hres. simpl in Hres.
  destruct (World.programConfig_at _ _ _) as [cfg|e]; destruct Hres as [Hr _];
    [|discriminate].
  injection Hr as ->. exists cfg. eexists. repeat split.
Qed.

Lemma sendTx_multisig_fetches ix st :
  (forall b,
     World.latestBlockhash_at (World.ledger (world st)) (World.clock (world st))
       = Fulfilled b ->
     count_since is_multisig_fetch (world st) (world (snd (sendTx ix st))) = 1%nat) /\
  (forall e,
     World.latestBlockhash_at (World.ledger (world st)) (World.clock (world st))
       = Rejected e ->
     count_since is_multisig_fetch (world st) (world (snd (sendTx ix st))) = 0%nat).
Proof.
  split.
  - intros b Hb. unfold count_since.
    destruct (sendTx_cases ix st)
      as [(r & st' & Hrun) | [(e & He) | [(b' & e & _ & Hm) | (b' & m & _ & Hm & Hlarge)]]].
    + destruct (sendTx_fulfilled ix st r st' Hrun) as (_ & _ & _ & _ & _ & _ & Hev).
      rewrite Hrun. simpl. by rewrite Hev.
    + congruence.
    + destruct (sendTx_fetch_rejected ix st b e Hb Hm) as (_ & Hev & _). by rewrite Hev.
    + destruct (sendTx_index_refused ix st b m Hb Hm Hlarge) as (_ & Hev & _).
      by rewrite Hev.
  - intros e He. unfold count_since.
    destruct (sendTx_blockhash_rejected ix st e He) as (_ & Hev & _). by rewrite Hev.
Qed.

(** C6 (amended).  [createMultiSig] reads the program config exactly once
    in every invocation, and a rejected read is its own rejection.
    [sendTx] reads the multisig account at most once in every invocation,
    exactly once whenever its preceding blockhash request fulfils; a
    rejection of the blockhash request or of the account read is the
    rejection of [sendTx], unchanged. *)
Theorem reads_once_no_retry st ix :
  count_since is_program_config_fetch (world st) (world (snd (createMultiSig st)))
    = 1%nat /\
  (forall e,
     World.programConfig_at (World.ledger (world st)) (World.clock (world st))
       getProgramConfigPda = Rejected e ->
     fst (createMultiSig st) = Rejected e) /\
  (count_since is_multisig_fetch (world st) (world (snd (sendTx ix st))) <= 1)%nat /\
  (forall b,
     World.latestBlockhash_at (World.ledger (world st)) (World.clock (world st))
       = Fulfilled b ->
     count_since is_multisig_fetch (world st) (world (snd (sendTx ix st))) = 1%nat) /\
  (forall b e,
     World.latestBlockhash_at (World.ledger (world st)) (World.clock (world st))
       = Fulfilled b ->
     World.multisig_at (World.ledger (world st)) (S (World.clock (world st)))
       (multisigPda (this st)) = Rejected e ->
     fst (sendTx ix st) = Rejected e) /\
  (forall e,
     World.latestBlockhash_at (World.ledger (world st)) (World.clock (world st))
       = Rejected e ->
     fst (sendTx ix st) = Rejected e).
Proof.
  destruct (createMultiSig_run st) as (Hev & _ & Hres).
  destruct (sendTx_multisig_fetches ix st) as [Hone Hzero].
  split; [unfold count_since; by rewrite Hev|].
  split; [intros e He; rewrite He in Hres; apply Hres|].
  split.
  { destruct (World.latestBlockhash_at (World.ledger (world st)) (World.clock (world st)))
      as [b|e] eqn:Hb.
    - rewrite (Hone b eq_refl). lia.
    - rewrite (Hzero e eq_refl). lia. }
  split; [exact Hone|].
  split.
  - intros b e Hb Hm. apply (sendTx_fetch_rejected ix st b e Hb Hm).
  - intros e He. apply (sendTx_blockhash_rejected ix st e He).
Qed.


(** C8.  Each of the four methods leaves the multisig address, the vault
    address, the create key, the agent and the fee payer of the service
    as they were.  Every fulfilled [sendTx] has fetched the multisig
    account once during that very call and tags its instructions with the
    index computed from that answer. *)
Theorem methods_keep_identity st ix :
  identity (this (snd (createMultiSig st))) = identity (this st) /\
  identity (this (snd (addSpendingLimit st))) = identity (this st) /\
  identity (this (snd (sendTx ix st))) = identity (this st) /\
  identity (this (snd (executeTx st))) = identity (this st) /\
  (forall r st',
     sendTx ix st = (Fulfilled r, st') ->
     count_since is_multisig_fetch (world st) (world st') = 1%nat /\
     exists m,
       World.multisig_at (World.ledger (world st)) (S (World.clock (world st)))
         (multisigPda (this st)) = Fulfilled m /\
       index_of (create_ix r) = Some (next_index m)).
Proof.
  split; [apply createMultiSig_run|].
  split; [by rewrite addSpendingLimit_run|].
  split.
  { destruct (sendTx_cases ix st)
      as [(r & st' & Hrun) | [(e & He) | [(b & e & Hb & Hm) | (b & m & Hb & Hm & Hlarge)]]].
    - destruct (sendTx_fulfilled ix st r st' Hrun) as (_ & _ & _ & _ & _ & Hthis & _).
      rewrite Hrun. simpl. by rewrite Hthis.
    - destruct (sendTx_blockhash_rejected ix st e He) as (_ & _ & Hthis). by rewrite Hthis.
    - destruct (sendTx_fetch_rejected ix st b e Hb Hm) as (_ & _ & Hthis). by rewrite Hthis.
    - destruct (sendTx_index_refused ix st b m Hb Hm Hlarge) as (_ & _ & Hthis).
      by rewrite Hthis. }
  split.
  { destruct (executeTx_run st) as (_ & Hthis & _). by rewrite Hthis. }
  intros r st' Hrun.
  destruct (sendTx_fulfilled ix st r st' Hrun) as (b & m & _ & Hm & -> & _ & Hev).
  split; [unfold count_since; by rewrite Hev|].
  exists m. split; [exact Hm | reflexivity].
Qed.

End WithSdk.

(** *** Concrete runs *)

(** With index 5 on the ledger the three instructions carry 6. *)
Lemma sendTx_next_index_witness :
  exists r st',
    sendTx [] (Sample.store_of (Sample.ledger 5)) = (Fulfilled r, st') /\
    index_of (transfer_ix r) = Some 6 /\
    index_of (create_ix r) = Some 6 /\
    index_of (approve_ix r) = Some 6.
Proof.
  destruct (sendTx [] (Sample.store_of (Sample.ledger 5))) as [[r|e] st'] eqn:Hrun;
    [|vm_compute in Hrun; discriminate].
  destruct (sendTx_next_index [] (Sample.store_of (Sample.ledger 5)) r st' Hrun)
    as (m & Hm & _ & Ht & Hc & Ha).
  vm_compute in Hm. injection Hm as <-.
  exists r, st'. split; [reflexivity|]. split; [exact Ht|]. split; [exact Hc | exact Ha].
Defined.

(** The largest index [sendTx] still increments: with 2^53 - 2 on the
    ledger the three instructions carry 2^53 - 1. *)
Example sendTx_last_accepted_index :
  exists r st',
    sendTx [] (Sample.store_of (Sample.ledger (2 ^ 53 - 2))) = (Fulfilled r, st') /\
    index_of (transfer_ix r) = Some (2 ^ 53 - 1) /\
    index_of (create_ix r) = Some (2 ^ 53 - 1) /\
    index_of (approve_ix r) = Some (2 ^ 53 - 1).
Proof. do 2 eexists. split; [vm_compute; reflexivity|]. repeat split. Qed.

(** With 2^53 - 1 or 2^53 on the ledger the incremented index is no safe
    integer: [proposalCreate] throws, [sendTx] rejects and returns no
    instruction at all. *)
Example sendTx_refuses_unsafe_index :
  fst (sendTx [] (Sample.store_of (Sample.ledger (2 ^ 53 - 1))))
    = Rejected "transactionIndex is too large" /\
  fst (sendTx [] (Sample.store_of (Sample.ledger (2 ^ 53))))
    = Rejected "transactionIndex is too large".
Proof. split; vm_compute; reflexivity. Qed.

(** [sendTx] tags its proposal with 6; [executeTx] right after it asks
    for index 1. *)
Lemma executeTx_index_hardcoded_witness :
  exists sent st r,
    sendTx [] (Sample.store_of (Sample.ledger 5)) = (Fulfilled sent, st) /\
    index_of (create_ix sent) = Some 6 /\
    fst (executeTx st) = Fulfilled r /\
    index_of (instruction r) = Some 1.
Proof.
  do 3 eexists. split; [cbv; reflexivity|]. split; [reflexivity|].
  split; [cbv; reflexivity|].
  exact (proj2 (proj2 (executeTx_index_hardcoded _))
           [] (Sample.store_of (Sample.ledger 5)) _ _ eq_refl eq_refl).
Defined.



(** The sample ledger's treasury is 77, the service starts with none. *)
Lemma createMultiSig_members_threshold_treasury_witness :
  exists r st' a,
    @createMultiSig Sample.sdk (Sample.store_of (Sample.ledger 0)) = (Fulfilled r, st') /\
    cm_ix r = IxMultisigCreateV2 a /\
    mc_members a = [ {| key := 11%N; permissions := {| mask := 7 |} |};
                     {| key := 22%N; permissions := {| mask := 7 |} |} ] /\
    mc_threshold a = 1 /\
    mc_treasury a = Some 77%N.
Proof.
  destruct (@createMultiSig_members_threshold_treasury Sample.sdk
              (Sample.store_of (Sample.ledger 0)) _ _ eq_refl)
    as (cfg & a & Hcfg & Hix & Hmem & Hth & Htr).
  do 2 eexists. exists a. split; [cbv; reflexivity|].
  injection Hcfg as <-. repeat split; assumption.
Defined.

(** On a ledger whose blockhash request fails, [sendTx] rejects without
    ever reading the multisig account. *)
Lemma sendTx_no_read_when_blockhash_fails :
  let st := Sample.store_of Sample.ledger_no_blockhash in
  fst (sendTx [] st) = Rejected "fetch failed"%string /\
  count_since is_multisig_fetch (world st) (world (snd (sendTx [] st)))
    = 0%nat /\
  count_since is_multisig_fetch (world st) (world (snd (sendTx [] st)))
    <> 1%nat.
Proof. vm_compute. repeat split. discriminate. Qed.

(** A healthy ledger: one read each.  An unreadable account: the
    library's rejection is the method's rejection. *)
Lemma reads_once_no_retry_witness :
  let ok := Sample.store_of (Sample.ledger 5) in
  let bad := Sample.store_of Sample.ledger_no_accounts in
  count_since is_program_config_fetch (world ok) (world (snd (@createMultiSig Sample.sdk ok)))
    = 1%nat /\
  count_since is_multisig_fetch (world ok) (world (snd (sendTx [] ok)))
    = 1%nat /\
  fst (@createMultiSig Sample.sdk bad)
    = Rejected "Unable to find ProgramConfig account"%string /\
  fst (sendTx [] bad) = Rejected "Unable to find Multisig account"%string /\
  fst (sendTx [] (Sample.store_of Sample.ledger_no_blockhash))
    = Rejected "fetch failed"%string.
Proof.
  intros ok bad.
  destruct (@reads_once_no_retry Sample.sdk ok []) as (Hc & _ & _ & Hs & _ & _).
  destruct (@reads_once_no_retry Sample.sdk bad []) as (_ & Hcr & _ & _ & Hsr & _).
  destruct (@reads_once_no_retry Sample.sdk
              (Sample.store_of Sample.ledger_no_blockhash) []) as (_ & _ & _ & _ & _ & Hbr).
  split; [exact Hc|]. split; [exact (Hs _ eq_refl)|].
  split; [exact (Hcr _ eq_refl)|]. split; [exact (Hsr _ _ eq_refl eq_refl)|].
  exact (Hbr _ eq_refl).
Defined.


(** The ledger shows index 5 during a first [sendTx] and 9 during a
    second one: the instructions carry 6, then 10, and the service is
    the same object throughout. *)
Lemma methods_keep_identity_witness :
  let st := Sample.store_of (Sample.ledger_moving (fun n => if (n <? 2)%nat then 5 else 9)) in
  exists r1 st1 r2 st2,
    sendTx [] st = (Fulfilled r1, st1) /\
    sendTx [] st1 = (Fulfilled r2, st2) /\
    index_of (create_ix r1) = Some 6 /\
    index_of (create_ix r2) = Some 10 /\
    count_since is_multisig_fetch (world st1) (world st2) = 1%nat /\
    this st2 = this st.
Proof.
  intros st. do 4 eexists.
  split; [cbv; reflexivity|]. split; [cbv; reflexivity|].
  split; [reflexivity|]. split; [reflexivity|].
  split; [|reflexivity].
  refine (proj1 (proj2 (proj2 (proj2 (proj2
            (@methods_keep_identity Sample.sdk _ [])))) _ _ _)).
  cbv; reflexivity.
Defined.

End MultiSigServiceFacts.

(* ===================================================================== *)
(** ** Properties of TokenProvider.fetchHolderList *)
(* ===================================================================== *)

Module TokenProviderFacts.
Import TokenProvider.
Import Async (Fulfilled, Rejected).

Lemma keys_set {V} (k : string) (v : V) (m : JsMap.t V) :
  JsMap.keys (JsMap.set k v m) =
  match JsMap.get k m with
  | Some _ => JsMap.keys m
  | None => JsMap.keys m ++ [k]
  end.
Proof.
  induction m as [|[k' v'] rest IH]; simpl; [reflexivity|].
  destruct (String.eqb_spec k k') as [->|Hne]; simpl; [reflexivity|].
  rewrite IH. by destruct (JsMap.get k rest).
Qed.

Lemma get_None_not_key {V} (k : string) (m : JsMap.t V) :
  JsMap.get k m = None -> k ∉ JsMap.keys m.
Proof.
  induction m as [|[k' v'] rest IH]; simpl; intros Hget.
  - apply not_elem_of_nil.
  - destruct (String.eqb_spec k k') as [->|Hne]; [discriminate|].
    apply not_elem_of_cons. split; [exact Hne | by apply IH].
Qed.

Lemma set_NoDup {V} (k : string) (v : V) (m : JsMap.t V) :
  NoDup (JsMap.keys m) -> NoDup (JsMap.keys (JsMap.set k v m)).
Proof.
  intros Hm. rewrite keys_set. destruct (JsMap.get k m) eqn:Hget; [exact Hm|].
  apply NoDup_app. split; [exact Hm|]. split.
  - intros x Hx Hin. apply list_elem_of_singleton in Hin as ->.
    by apply (get_None_not_key _ _ Hget).
  - apply NoDup_singleton.
Qed.

Section WithFloat.
Context `{JsFloat}.

Lemma add_account_NoDup m account :
  NoDup (JsMap.keys m) -> NoDup (JsMap.keys (add_account m account)).
Proof.
  intros Hm. unfold add_account.
  destruct (JsMap.get (owner account) m); by apply set_NoDup.
Qed.

Lemma fold_add_account_NoDup accounts : forall m,
  NoDup (JsMap.keys m) -> NoDup (JsMap.keys (fold_left add_account accounts m)).
Proof.
  induction accounts as [|a rest IH]; intros m Hm; simpl; [exact Hm|].
  apply IH. by apply add_account_NoDup.
Qed.

Lemma holders_of_addresses m : map address (holders_of m) = JsMap.keys m.
Proof.
  unfold holders_of, JsMap.entries, JsMap.keys.
  induction m as [|[k v] rest IH]; simpl; [reflexivity | by rewrite IH].
Qed.

Lemma after_refl st : after st st [].
Proof. unfold after. by rewrite app_nil_r. Qed.

Lemma after_post st rq :
  after st (snd (axios_post rq st)) [(rq, network st (length (exchanges st)) rq)].
Proof. by unfold after. Qed.

Lemma after_trans st1 st2 st3 made1 made2 :
  after st1 st2 made1 -> after st2 st3 made2 -> after st1 st3 (made1 ++ made2).
Proof.
  intros (Ha & Hc & He & Hn & Hx) (Ha' & Hc' & He' & Hn' & Hx'). unfold after.
  rewrite Ha', Hc', He', Hn', Hx', Hx, app_assoc. by repeat split.
Qed.

Lemma after_exchanges_since st st' made :
  after st st' made -> exchanges_since st st' = made.
Proof.
  intros (_ & _ & _ & _ & Hx). unfold exchanges_since. rewrite Hx. apply drop_app_length.
Qed.


(** One iteration: either the page limit stops it before any post, or it
    posts once and the answer decides. *)
Lemma loop_body_run url mint l st :
  let rq := {| rq_url := url; rq_limit := 1000; rq_mint := mint;
               rq_cursor := cursor_var l |} in
  let answer := network st (length (exchanges st)) rq in
  let st1 := snd (axios_post rq st) in
  loop_body url mint l st =
    if 100 <? page l then (Fulfilled (Break l), st)
    else match answer with
         | Rejected e => (Rejected e, st1)
         | Fulfilled data =>
             match accounts_of data with
             | None => (Fulfilled (Break l), st1)
             | Some accounts =>
                 (Fulfilled (Continue
                    {| allHoldersMap := fold_left add_account accounts (allHoldersMap l);
                       page := page l + 1;
                       cursor_var := cursor_of data |}), st1)
             end
         end.
Proof.
  simpl. unfold loop_body. destruct (100 <? page l); [reflexivity|].
  unfold Async.bind, axios_post. simpl.
  destruct (network st _ _) as [data|e]; [|reflexivity].
  by destruct (accounts_of data).
Qed.

(** Whatever the fuel, the loop only posts, and its map keeps one entry
    per owner. *)
Lemma while_true_frame url mint : forall fuel l st,
  NoDup (JsMap.keys (allHoldersMap l)) ->
  exists made,
    after st (snd (while_true fuel (loop_body url mint) l st)) made /\
    forall l', fst (while_true fuel (loop_body url mint) l st) = Fulfilled (Some l') ->
               NoDup (JsMap.keys (allHoldersMap l')).
Proof.
  induction fuel as [|fuel IH]; intros l st Hl; simpl.
  - exists []. split; [apply after_refl | discriminate].
  - unfold Async.bind. rewrite loop_body_run.
    destruct (100 <? page l).
    { exists []. split; [apply after_refl|]. simpl. by intros l' [= <-]. }
    set (rq := {| rq_url := url; rq_limit := 1000; rq_mint := mint;
                  rq_cursor := cursor_var l |}).
    pose proof (after_post st rq) as Hpost.
    destruct (network st (length (exchanges st)) rq) as [data|e].
    + destruct (accounts_of data) as [accounts|].
      * destruct (IH {| allHoldersMap := fold_left add_account accounts (allHoldersMap l);
                        page := page l + 1; cursor_var := cursor_of data |}
                     (snd (axios_post rq st)))
          as (made & Hafter & Hmap); [apply fold_add_account_NoDup, Hl|].
        eexists. split; [eapply after_trans; [exact Hpost | exact Hafter]|].
        exact Hmap.
      * eexists. split; [exact Hpost|]. simpl. by intros l' [= <-].
    + eexists. split; [exact Hpost|]. discriminate.
Qed.

(** With enough fuel for the pages that are left, the loop ends, and it
    ends at the first of: the page limit, an answer without token
    accounts, a rejected post.  Every post before the one that ended it
    was answered with token accounts; it posts at most once per page
    left. *)
Lemma while_true_ends url mint : forall fuel l st,
  1 <= page l <= 101 ->
  (Z.to_nat (101 - page l) < fuel)%nat ->
  exists out st' made,
    while_true fuel (loop_body url mint) l st = (out, st') /\
    after st st' made /\
    Z.of_nat (length made) <= 101 - page l /\
    match out with
    | Fulfilled None => False
    | Fulfilled (Some l') =>
        (page l' = 101 /\ Z.of_nat (length made) = 101 - page l /\
         all_with_accounts made) \/
        (exists before rq answer,
           made = before ++ [(rq, answer)] /\ no_accounts answer /\
           all_with_accounts before)
    | Rejected e =>
        exists before rq,
          made = before ++ [(rq, Rejected e)] /\ all_with_accounts before
    end.
Proof.
  induction fuel as [|fuel IH]; intros l st Hpage Hfuel; [lia|].
  simpl. unfold Async.bind. rewrite loop_body_run.
  destruct (Z.ltb_spec 100 (page l)) as [Hlimit|Hmore].
  { exists (Fulfilled (Some l)), st, []. split; [reflexivity|].
    split; [apply after_refl|]. simpl. split; [lia|]. left.
    split; [lia|]. split; [lia | apply Forall_nil_2]. }
  set (rq := {| rq_url := url; rq_limit := 1000; rq_mint := mint;
                rq_cursor := cursor_var l |}).
  pose proof (after_post st rq) as Hpost.
  destruct (network st (length (exchanges st)) rq) as [data|e] eqn:Hanswer.
  - destruct (accounts_of data) as [accounts|] eqn:Haccounts.
    + edestruct (IH {| allHoldersMap := fold_left add_account accounts (allHoldersMap l);
                       page := page l + 1; cursor_var := cursor_of data |}
                    (snd (axios_post rq st)))
        as (out & st' & made & Hrun & Hafter & Hlen & Hout); [simpl; lia | simpl; lia|].
      simpl in Hlen, Hout.
      assert (Hfirst : has_accounts (snd (rq, Fulfilled data)))
        by (by exists data, accounts).
      exists out, st', ([(rq, Fulfilled data)] ++ made).
      split; [exact Hrun|].
      split; [eapply after_trans; [exact Hpost | exact Hafter]|].
      split; [simpl; lia|].
      change ([(rq, Fulfilled data)] ++ made) with ((rq, Fulfilled data) :: made).
      destruct out as [[l'|]|e]; [|exact Hout|].
      * destruct Hout as [(Hp & Hn & Hall) | (before & rq' & answer & -> & Hno & Hall)].
        -- left. split; [exact Hp|]. split; [simpl; lia | by apply Forall_cons].
        -- right. exists ((rq, Fulfilled data) :: before), rq', answer.
           split; [reflexivity|]. split; [exact Hno | by apply Forall_cons].
      * destruct Hout as (before & rq' & -> & Hall).
        exists ((rq, Fulfilled data) :: before), rq'.
        split; [reflexivity | by apply Forall_cons].
    + exists (Fulfilled (Some l)), (snd (axios_post rq st)), [(rq, Fulfilled data)].
      split; [reflexivity|]. split; [exact Hpost|]. split; [simpl; lia|].
      right. exists [], rq, (Fulfilled data). split; [reflexivity|].
      split; [by exists data | apply Forall_nil_2].
  - exists (Rejected e), (snd (axios_post rq st)), [(rq, Rejected e)].
    split; [reflexivity|]. split; [exact Hpost|]. split; [simpl; lia|].
    exists [], rq. split; [reflexivity | apply Forall_nil_2].
Qed.


(** [fetchHolderList] in terms of its cache lookup and its loop. *)
Lemma fetchHolderList_run fuel st :
  let key := String.append "holderList_" (token_address st) in
  let r := while_true fuel
             (loop_body (helius_url (env_HELIOUS_API_KEY st)) (token_address st))
             {| allHoldersMap := []; page := 1; cursor_var := None |} st in
  fetchHolderList fuel st =
    match cache st !! key with
    | Some data => (Fulfilled (Some data), st)
    | None =>
        match fst r with
        | Fulfilled None => (Fulfilled None, snd r)
        | Fulfilled (Some l) =>
            (Fulfilled (Some (holders_of (allHoldersMap l))),
             snd (setCachedData key (holders_of (allHoldersMap l)) 3600 (snd r)))
        | Rejected e => (Rejected error_message, snd r)
        end
    end.
Proof.
  simpl. unfold fetchHolderList, Async.bind, Async.get, getCachedData. simpl.
  destruct (cache st !! _); [reflexivity|].
  unfold Async.try_catch, Async.bind.
  by destruct (while_true _ _ _ _) as [[[l|]|e] st'].
Qed.

Lemma cache_ok_insert c k holders :
  cache_ok c -> NoDup (map address holders) -> cache_ok (<[k := holders]> c).
Proof.
  intros Hc Hh k' holders' Hlook.
  apply lookup_insert_Some in Hlook as [[_ <-] | [_ Hlook]]; [exact Hh|].
  by apply (Hc k').
Qed.

Lemma cache_ok_delete c k : cache_ok c -> cache_ok (delete k c).
Proof.
  intros Hc k' holders' Hlook.
  apply lookup_delete_Some in Hlook as [_ Hlook]. by apply (Hc k').
Qed.

Lemma fetchHolderList_cache_ok fuel st :
  cache_ok (cache st) -> cache_ok (cache (snd (fetchHolderList fuel st))).
Proof.
  intros Hc. rewrite fetchHolderList_run.
  destruct (cache st !! _); [exact Hc|].
  destruct (while_true_frame (helius_url (env_HELIOUS_API_KEY st)) (token_address st) fuel
              {| allHoldersMap := []; page := 1; cursor_var := None |} st)
    as (made & (_ & Hcache & _) & Hmap); [apply NoDup_nil_2|].
  destruct (fst (while_true _ _ _ _)) as [[l|]|e]; simpl; try by rewrite Hcache.
  rewrite Hcache. apply cache_ok_insert; [exact Hc|].
  rewrite holders_of_addresses. by apply Hmap.
Qed.

Lemma reachable_cache_ok st : reachable st -> cache_ok (cache st).
Proof.
  induction 1 as [a key net | fuel st _ IH | k st _ IH | a st _ IH]; simpl.
  - intros k holders Hlook. by rewrite lookup_empty in Hlook.
  - by apply fetchHolderList_cache_ok.
  - by apply cache_ok_delete.
  - exact IH.
Qed.

(** C10.  On every reachable provider and against every network,
    [fetchHolderList] returns once its loop is given 101 iterations or
    more, and it makes at most 100 posts.  It fulfils with a list that
    names each owner address at most once, and then either the list came
    from the cache with no post, or the loop stopped at the page limit
    after exactly 100 posts that were all answered with token accounts,
    or it stopped at the first answer without token accounts: that answer
    is the last post and every post before it was answered with token
    accounts.  Otherwise it rejects, at the first rejected post: that
    post is the last one and every post before it was answered with token
    accounts. *)
Theorem fetchHolderList_bounded_paging fuel st :
  reachable st ->
  (101 <= fuel)%nat ->
  exists out st',
    fetchHolderList fuel st = (out, st') /\
    (length (exchanges_since st st') <= 100)%nat /\
    match out with
    | Fulfilled None => False
    | Fulfilled (Some holders) =>
        NoDup (map address holders) /\
        ((cache st !! String.append "holderList_" (token_address st) = Some holders /\
          exchanges_since st st' = []) \/
         (length (exchanges_since st st') = 100%nat /\
          all_with_accounts (exchanges_since st st')) \/
         (exists before rq answer,
            exchanges_since st st' = before ++ [(rq, answer)] /\
            last (exchanges_since st st') = Some (rq, answer) /\
            no_accounts answer /\
            all_with_accounts before))
    | Rejected e =>
        e = error_message /\
        exists before rq e0,
          exchanges_since st st' = before ++ [(rq, Rejected e0)] /\
          last (exchanges_since st st') = Some (rq, Rejected e0) /\
          all_with_accounts before
    end.
Proof.
  intros Hreach Hfuel.
  pose proof (reachable_cache_ok st Hreach) as Hc.
  rewrite fetchHolderList_run.
  destruct (cache st !! String.append "holderList_" (token_address st))
    as [data|] eqn:Hcached.
  { exists (Fulfilled (Some data)), st. split; [reflexivity|].
    rewrite (after_exchanges_since st st [] (after_refl st)).
    split; [simpl; lia|]. split; [by apply (Hc _ _ Hcached)|]. by left. }
  destruct (while_true_ends (helius_url (env_HELIOUS_API_KEY st)) (token_address st) fuel
              {| allHoldersMap := []; page := 1; cursor_var := None |} st)
    as (out & st' & made & Hrun & Hafter & Hlen & Hout); [simpl; lia | simpl; lia|].
  destruct (while_true_frame (helius_url (env_HELIOUS_API_KEY st)) (token_address st) fuel
              {| allHoldersMap := []; page := 1; cursor_var := None |} st)
    as (_ & _ & Hmap); [apply NoDup_nil_2|].
  rewrite Hrun in Hmap |- *. simpl in Hlen, Hout, Hmap |- *.
  pose proof (after_exchanges_since st st' made Hafter) as Hsince.
  destruct out as [[l|]|e]; [|contradiction|].
  - exists (Fulfilled (Some (holders_of (allHoldersMap l)))),
           (snd (setCachedData (String.append "holderList_" (token_address st))
                   (holders_of (allHoldersMap l)) 3600 st')).
    split; [reflexivity|].
    assert (Hsame : exchanges_since st
              (snd (setCachedData (String.append "holderList_" (token_address st))
                      (holders_of (allHoldersMap l)) 3600 st')) = made).
    { destruct Hafter as (_ & _ & _ & _ & Hx).
      unfold exchanges_since. simpl. rewrite Hx. apply drop_app_length. }
    rewrite Hsame. split; [lia|].
    split; [rewrite holders_of_addresses; by apply Hmap|].
    right. destruct Hout as [(_ & Hn & Hall) | (before & rq & answer & Hmade & Hno & Hall)].
    + left. split; [lia | exact Hall].
    + right. exists before, rq, answer. split; [exact Hmade|].
      split; [rewrite Hmade; apply last_snoc|]. by split.
  - exists (Rejected error_message), st'. split; [reflexivity|].
    rewrite Hsince. split; [lia|]. split; [reflexivity|].
    destruct Hout as (before & rq & Hmade & Hall). exists before, rq, e.
    split; [exact Hmade|]. split; [rewrite Hmade; apply last_snoc | exact Hall].
Qed.

End WithFloat.

(** *** Concrete runs *)

(** Two pages naming one owner four times, then an empty page: three
    posts, one entry. *)
Example fetchHolderList_two_pages :
  let st := Sample.provider Sample.network_two_pages in
  fst (@fetchHolderList Sample.float 101 st)
    = Fulfilled (Some [ {| address := "alice"; balance := "14" |} ]) /\
  length (exchanges_since st (snd (@fetchHolderList Sample.float 101 st))) = 3%nat.
Proof. vm_compute. split; reflexivity. Qed.

(** A second call is served from the cache without any post. *)
Example fetchHolderList_cached :
  let st := snd (@fetchHolderList Sample.float 101
                   (Sample.provider Sample.network_two_pages)) in
  fst (@fetchHolderList Sample.float 101 st)
    = Fulfilled (Some [ {| address := "alice"; balance := "14" |} ]) /\
  exchanges_since st (snd (@fetchHolderList Sample.float 101 st)) = [].
Proof. vm_compute. split; reflexivity. Qed.

(** Against a network that never runs out of pages the call stops after
    100 posts, with one entry per owner; against a network whose third
    answer is empty it stops at that answer, after 3 posts. *)
Lemma fetchHolderList_bounded_paging_witness :
  (exists out st',
     @fetchHolderList Sample.float 101 (Sample.provider Sample.network_endless)
       = (out, st') /\
     length (exchanges_since (Sample.provider Sample.network_endless) st') = 100%nat /\
     out = Fulfilled (Some [ {| address := "alice"; balance := "200" |};
                             {| address := "bob"; balance := "300" |} ])) /\
  (exists out st' before rq answer,
     @fetchHolderList Sample.float 101 (Sample.provider Sample.network_two_pages)
       = (out, st') /\
     out = Fulfilled (Some [ {| address := "alice"; balance := "14" |} ]) /\
     exchanges_since (Sample.provider Sample.network_two_pages) st'
       = before ++ [(rq, answer)] /\
     length before = 2%nat /\
     all_with_accounts before /\
     no_accounts answer).
Proof.
  split.
  - destruct (@fetchHolderList_bounded_paging Sample.float 101
                (Sample.provider Sample.network_endless))
      as (out & st' & Hrun & Hlen & _); [apply reach_new | lia |].
    exists out, st'. split; [exact Hrun|].
    pose proof Hrun as Hv. vm_compute in Hv. injection Hv as <- <-.
    split; vm_compute; reflexivity.
  - destruct (@fetchHolderList_bounded_paging Sample.float 101
                (Sample.provider Sample.network_two_pages))
      as (out & st' & Hrun & _ & Hout); [apply reach_new | lia |].
    pose proof Hrun as Hv. vm_compute in Hv. injection Hv as <- <-.
    destruct Hout as [_ [[Hcached _] | [[Hlen _] | Hstop]]].
    + vm_compute in Hcached. discriminate.
    + vm_compute in Hlen. discriminate.
    + destruct Hstop as (before & rq & answer & Hmade & _ & Hno & Hall).
      do 2 eexists. exists before, rq, answer.
      split; [exact Hrun|]. split; [reflexivity|]. split; [exact Hmade|].
      split; [|by split].
      assert (Hthree : length (exchanges_since (Sample.provider Sample.network_two_pages)
                                 (snd (@fetchHolderList Sample.float 101
                                         (Sample.provider Sample.network_two_pages))))
                       = 3%nat) by (vm_compute; reflexivity).
      rewrite Hrun in Hthree. simpl snd in Hthree.
      rewrite Hmade, length_app in Hthree. simpl in Hthree. lia.
Defined.

End TokenProviderFacts.

(* ===================================================================== *)
(** ** More on splitMessage: what the chunks contain *)
(* ===================================================================== *)

Module SplitMessageContent.
Import MessageManager JsArray MessageManagerAux.

Lemma without_newlines_app a b :
  without_newlines (a ++ b) = without_newlines a ++ without_newlines b.
Proof. unfold without_newlines. apply List.filter_app. Qed.

Lemma split_newline_not_nil s : JsString.split_newline s <> [].
Proof.
  destruct s as [|c rest]; simpl; [discriminate|].
  destruct (N.eqb c JsString.newline); [discriminate|].
  destruct (JsString.split_newline rest); discriminate.
Qed.

(** [split] then [join] is the identity. *)
Lemma join_split s : join_newline (JsString.split_newline s) = s.
Proof.
  induction s as [|c rest IH]; simpl; [reflexivity|].
  destruct (N.eqb_spec c JsString.newline) as [->|Hc].
  - pose proof (split_newline_not_nil rest) as Hne.
    destruct (JsString.split_newline rest) as [|l ls] eqn:Hsplit; [contradiction|].
    simpl. simpl in IH. by rewrite IH.
  - pose proof (split_newline_not_nil rest) as Hne.
    destruct (JsString.split_newline rest) as [|l ls] eqn:Hsplit; [contradiction|].
    simpl in IH |- *. destruct ls as [|l' ls']; simpl in *; by rewrite IH.
Qed.

(** The lines, glued without separators, are the text without its line
    breaks. *)
Lemma concat_split s :
  concat (JsString.split_newline s) = without_newlines s.
Proof.
  induction s as [|c rest IH]; simpl; [reflexivity|].
  unfold without_newlines in *. simpl.
  destruct (N.eqb_spec c JsString.newline) as [->|Hc]; simpl; [exact IH|].
  pose proof (split_newline_not_nil rest) as Hne.
  destruct (JsString.split_newline rest) as [|l ls]; [contradiction|].
  simpl in *. by rewrite IH.
Qed.

Lemma split_lines_no_newline s :
  Forall (fun l => JsString.newline ∉ l) (JsString.split_newline s).
Proof.
  induction s as [|c rest IH]; simpl.
  - constructor; [apply not_elem_of_nil | constructor].
  - destruct (N.eqb_spec c JsString.newline) as [->|Hc].
    + constructor; [apply not_elem_of_nil | exact IH].
    + destruct (JsString.split_newline rest) as [|l ls].
      * constructor; [|constructor]. intros Hin.
        apply list_elem_of_singleton in Hin. congruence.
      * inversion IH as [|? ? Hl Hls]; subst. constructor; [|exact Hls].
        intros Hin. apply elem_of_cons in Hin as [Heq|Hin]; [congruence | by apply Hl].
Qed.

Lemma without_newlines_id l : JsString.newline ∉ l -> without_newlines l = l.
Proof.
  induction l as [|c rest IH]; intros Hnot; [reflexivity|].
  unfold without_newlines in *. simpl.
  apply not_elem_of_cons in Hnot as [Hc Hrest].
  destruct (N.eqb_spec c JsString.newline) as [->|_]; [congruence|].
  simpl. by rewrite IH.
Qed.

Lemma concat_push_if_truthy cs c : concat (push_if_truthy cs c) = concat cs ++ c.
Proof.
  unfold push_if_truthy. destruct c as [|x c']; simpl.
  - by rewrite app_nil_r.
  - rewrite concat_app. simpl. by rewrite app_nil_r.
Qed.

Lemma loop_body_content st line :
  without_newlines (content (loop_body st line)) =
  without_newlines (content st) ++ without_newlines line.
Proof.
  unfold loop_body, content.
  destruct (_ <=? _); simpl.
  - rewrite !without_newlines_app.
    destruct (JsString.truthy (currentChunk st)); simpl; by rewrite <- ?app_assoc.
  - by rewrite concat_push_if_truthy, !without_newlines_app.
Qed.

Lemma fold_loop_body_content lines : forall st,
  without_newlines (content (fold_left loop_body lines st)) =
  without_newlines (content st) ++ without_newlines (concat lines).
Proof.
  induction lines as [|l ls IH]; intros st; simpl.
  - by rewrite app_nil_r.
  - rewrite IH, loop_body_content, without_newlines_app. by rewrite <- app_assoc.
Qed.

(** X1.  The chunks hold every code unit of the text that is not a line
    break, each once and in the order of the text: gluing the chunks and
    dropping line breaks gives the text with its line breaks dropped. *)
Theorem splitMessage_keeps_content (text : JsString.t) :
  without_newlines (concat (splitMessage text)) = without_newlines text.
Proof.
  unfold splitMessage. rewrite concat_push_if_truthy.
  change (without_newlines
            (content (fold_left loop_body (JsString.split_newline text) (Locals [] [])))
          = without_newlines text).
  rewrite fold_loop_body_content. simpl.
  rewrite concat_split. apply without_newlines_id.
  unfold without_newlines. intros Hin. apply list_elem_of_In, List.filter_In in Hin.
  destruct Hin as [_ Hneq]. by rewrite N.eqb_refl in Hneq.
Qed.


Lemma join_snoc (ls : list JsString.t) (x : JsString.t) :
  ls <> [] -> join_newline (ls ++ [x]) = join_newline ls ++ [JsString.newline] ++ x.
Proof.
  induction ls as [|l rest IH]; intros Hne; [contradiction|].
  destruct rest as [|l' rest']; [reflexivity|].
  change (l ++ [JsString.newline] ++ join_newline ((l' :: rest') ++ [x]) =
          (l ++ [JsString.newline] ++ join_newline (l' :: rest')) ++ [JsString.newline] ++ x).
  rewrite IH by discriminate. by rewrite <- !app_assoc.
Qed.

Lemma join_last_app (cs : list JsString.t) (a b : JsString.t) :
  join_newline (cs ++ [a ++ b]) = join_newline (cs ++ [a]) ++ b.
Proof.
  induction cs as [|c rest IH]; [reflexivity|].
  destruct rest as [|c' rest']; simpl in *.
  - by rewrite <- !app_assoc.
  - rewrite IH. by rewrite <- !app_assoc.
Qed.

(** While only non-empty lines come in, the finished chunks followed by
    the chunk under construction join back to the lines seen so far. *)
Lemma fold_loop_body_join rest : forall st seen,
  Forall (fun l => l <> []) rest ->
  seen <> [] ->
  currentChunk st <> [] ->
  join_newline (chunks st ++ [currentChunk st]) = join_newline seen ->
  let st' := fold_left loop_body rest st in
  currentChunk st' <> [] /\
  join_newline (chunks st' ++ [currentChunk st']) = join_newline (seen ++ rest).
Proof.
  induction rest as [|line rest IH]; intros st seen Hrest Hseen Hcur Hjoin; simpl.
  - by rewrite app_nil_r.
  - inversion Hrest as [|? ? Hline Hrest']; subst.
    replace (seen ++ line :: rest) with ((seen ++ [line]) ++ rest)
      by (by rewrite <- app_assoc).
    apply IH; [exact Hrest' | by destruct seen | |].
    + unfold loop_body. destruct (_ <=? _); simpl; [|exact Hline].
      destruct (currentChunk st); [contradiction | discriminate].
    + unfold loop_body. destruct (_ <=? _); simpl.
      * destruct (currentChunk st) as [|c cur] eqn:Hc; [contradiction|].
        simpl JsString.truthy. cbv iota.
        by rewrite join_last_app, Hjoin, join_snoc by exact Hseen.
      * unfold push_if_truthy.
        destruct (currentChunk st) as [|c cur] eqn:Hc; [contradiction|].
        simpl JsString.truthy. cbv iota.
        rewrite join_snoc by (by destruct (chunks st)).
        rewrite Hjoin. by rewrite join_snoc by exact Hseen.
Qed.

(** X2.  When no line of the text is empty, nothing but the place of the
    cuts is decided by [splitMessage]: joining the chunks with line
    breaks gives back the text. *)
Theorem splitMessage_join_roundtrip (text : JsString.t) :
  Forall (fun l => l <> []) (JsString.split_newline text) ->
  join_newline (splitMessage text) = text.
Proof.
  intros Hlines. unfold splitMessage.
  pose proof (join_split text) as Hback.
  destruct (JsString.split_newline text) as [|first rest] eqn:Hsplit;
    [by apply split_newline_not_nil in Hsplit|].
  apply Forall_cons in Hlines as [Hfirst Hrest].
  simpl fold_left.
  assert (Hstart : loop_body (Locals [] []) first = Locals [] first).
  { unfold loop_body. simpl. destruct (_ <=? _); reflexivity. }
  rewrite Hstart.
  destruct (fold_loop_body_join rest (Locals [] first) [first] Hrest)
    as [Hcur Hjoin]; [discriminate | exact Hfirst | reflexivity|].
  simpl in Hjoin. unfold push_if_truthy.
  destruct (currentChunk _) as [|c cur] eqn:Hc; [contradiction|].
  simpl JsString.truthy. cbv iota. rewrite Hjoin. exact Hback.
Qed.

(** Text with a line of 2000 letters, a second one and a third one. *)
Lemma splitMessage_join_roundtrip_witness :
  join_newline (splitMessage Sample.three_lines) = Sample.three_lines.
Proof.
  apply splitMessage_join_roundtrip.
  repeat (constructor; [by vm_compute|]). constructor.
Defined.


Lemma weight_app a b : weight (a ++ b) = weight a + weight b.
Proof. induction a as [|x a IH]; simpl; [reflexivity | rewrite IH; lia]. Qed.

Lemma weight_nonneg a : 0 <= weight a.
Proof.
  induction a as [|x a IH]; simpl; [lia|].
  pose proof (MessageManagerFacts.length_nonneg x). lia.
Qed.

Lemma length_join ls : ls <> [] -> JsString.length (join_newline ls) = weight ls - 1.
Proof.
  induction ls as [|l rest IH]; intros Hne; [contradiction|].
  destruct rest as [|l' rest']; [simpl; lia|].
  change (join_newline (l :: l' :: rest'))
    with (l ++ [JsString.newline] ++ join_newline (l' :: rest')).
  rewrite !MessageManagerFacts.length_app, IH by discriminate.
  change (JsString.length [JsString.newline]) with 1.
  change (weight (l :: l' :: rest')) with (JsString.length l + 1 + weight (l' :: rest')).
  lia.
Qed.

(** While everything seen and to come fits one message, the loop keeps
    one growing chunk and finishes none. *)
Lemma fold_loop_body_single rest : forall st seen,
  seen <> [] ->
  chunks st = [] ->
  currentChunk st = join_newline seen ->
  currentChunk st <> [] ->
  weight (seen ++ rest) - 1 <= MAX_MESSAGE_LENGTH ->
  fold_left loop_body rest st = Locals [] (join_newline (seen ++ rest)).
Proof.
  induction rest as [|line rest IH]; intros st seen Hseen Hchunks Hcur Hne Hfit; simpl.
  - rewrite app_nil_r, <- Hcur, <- Hchunks. by destruct st.
  - replace (seen ++ line :: rest) with ((seen ++ [line]) ++ rest) in *
      by (by rewrite <- app_assoc).
    assert (Hroom : JsString.length (currentChunk st) + JsString.length line + 1
                    <= MAX_MESSAGE_LENGTH).
    { rewrite Hcur, length_join by exact Hseen.
      rewrite !weight_app in Hfit. simpl in Hfit.
      pose proof (weight_nonneg rest). lia. }
    assert (Hstep : loop_body st line =
                    Locals [] (join_newline (seen ++ [line]))).
    { unfold loop_body. destruct (Z.leb_spec _ _ : BoolSpec _ _
        (JsString.length (currentChunk st) + JsString.length line + 1 <=? MAX_MESSAGE_LENGTH));
        [|lia].
      rewrite Hchunks, join_snoc by exact Hseen. rewrite <- Hcur.
      destruct (currentChunk st); [contradiction | reflexivity]. }
    rewrite Hstep. apply IH; simpl; try done.
    + by destruct seen.
    + rewrite join_snoc by exact Hseen. by destruct (join_newline seen).
Qed.

(** X3.  A text of at most 4096 code units that is not empty and does
    not begin with a line break comes back as a single chunk, unchanged. *)
Theorem splitMessage_short_text (text : JsString.t) :
  text <> [] ->
  head text <> Some JsString.newline ->
  JsString.length text <= MAX_MESSAGE_LENGTH ->
  splitMessage text = [text].
Proof.
  intros Hne Hhead Hlen. unfold splitMessage.
  pose proof (join_split text) as Hback.
  destruct text as [|c tail]; [contradiction|].
  assert (Hc : c <> JsString.newline) by (intros ->; by apply Hhead).
  simpl JsString.split_newline in *.
  destruct (N.eqb_spec c JsString.newline) as [Heq|_]; [contradiction|].
  pose proof (split_newline_not_nil tail) as Htail.
  destruct (JsString.split_newline tail) as [|l rest]; [contradiction|].
  simpl fold_left.
  assert (Hstart : loop_body (Locals [] []) (c :: l) = Locals [] (c :: l)).
  { unfold loop_body. simpl. destruct (_ <=? _); reflexivity. }
  rewrite Hstart.
  rewrite (fold_loop_body_single rest (Locals [] (c :: l)) [c :: l]); try done.
  - change ([c :: l] ++ rest) with ((c :: l) :: rest). rewrite Hback. reflexivity.
  - change ([c :: l] ++ rest) with ((c :: l) :: rest).
    rewrite <- length_join by discriminate. by rewrite Hback.
Qed.

(** The two lines of a short greeting stay together. *)
Lemma splitMessage_short_text_witness :
  splitMessage (JsString.of_string "hello
world") = [JsString.of_string "hello
world"].
Proof.
  apply splitMessage_short_text; [discriminate | discriminate | by vm_compute].
Defined.

Lemma fold_loop_body_empty_lines lines :
  Forall (fun l => l = []) lines ->
  fold_left loop_body lines (Locals [] []) = Locals [] [].
Proof.
  induction lines as [|l rest IH]; intros Hall; simpl; [reflexivity|].
  apply Forall_cons in Hall as [-> Hrest]. by apply IH.
Qed.

Lemma split_only_newlines text :
  Forall (fun c => c = JsString.newline) text ->
  Forall (fun l => l = []) (JsString.split_newline text).
Proof.
  induction text as [|c rest IH]; intros Hall; simpl.
  - by constructor.
  - apply Forall_cons in Hall as [-> Hrest]. simpl.
    constructor; [reflexivity | by apply IH].
Qed.

(** X4.  A text made of line breaks only, the empty text included,
    yields no chunk at all. *)
Theorem splitMessage_only_newlines (text : JsString.t) :
  Forall (fun c => c = JsString.newline) text ->
  splitMessage text = [].
Proof.
  intros Hall. unfold splitMessage.
  by rewrite (fold_loop_body_empty_lines _ (split_only_newlines text Hall)).
Qed.

Lemma splitMessage_only_newlines_witness :
  splitMessage (replicate 3 JsString.newline) = [].
Proof.
  apply splitMessage_only_newlines. repeat constructor.
Defined.

Lemma oversize_truthy l : oversize l -> JsString.truthy l = true.
Proof.
  unfold oversize, MAX_MESSAGE_LENGTH, JsString.length.
  destruct l; simpl; [lia | reflexivity].
Qed.

Lemma elem_of_push_if_truthy l cs c :
  l ∈ cs \/ (l = c /\ JsString.truthy c = true) -> l ∈ push_if_truthy cs c.
Proof.
  unfold push_if_truthy. intros [Hin | [-> Ht]].
  - destruct (JsString.truthy c); [apply elem_of_app; by left | exact Hin].
  - rewrite Ht. apply elem_of_app. right. by apply list_elem_of_singleton.
Qed.

(** An oversize line that was seen is a finished chunk or the chunk
    under construction, and stays one. *)
Lemma fold_loop_body_oversize l lines : forall st,
  oversize l ->
  l ∈ chunks st \/ l = currentChunk st \/ l ∈ lines ->
  l ∈ chunks (fold_left loop_body lines st) \/
  l = currentChunk (fold_left loop_body lines st).
Proof.
  induction lines as [|line rest IH]; intros st Hbig Hwhere; simpl.
  - destruct Hwhere as [H | [H | H]]; [by left | by right | by apply elem_of_nil in H].
  - apply IH; [exact Hbig|].
    pose proof (MessageManagerFacts.length_nonneg (currentChunk st)) as Hc.
    pose proof (MessageManagerFacts.length_nonneg line) as Hl.
    unfold loop_body.
    destruct (Z.leb_spec (JsString.length (currentChunk st) + JsString.length line + 1)
                MAX_MESSAGE_LENGTH) as [Hfit|Hover]; simpl.
    + destruct Hwhere as [H | [H | H]]; [by left | |].
      * subst l. unfold oversize in Hbig. lia.
      * apply elem_of_cons in H as [-> | H]; [unfold oversize in Hbig; lia|].
        by right; right.
    + destruct Hwhere as [H | [H | H]].
      * left. apply elem_of_push_if_truthy. by left.
      * left. apply elem_of_push_if_truthy. right. subst l.
        split; [reflexivity | by apply oversize_truthy].
      * apply elem_of_cons in H as [-> | H]; [right; by left | right; by right].
Qed.

(** X5.  A line of 4096 code units or more is never cut and never
    merged with its neighbours: it is one of the returned chunks. *)
Theorem splitMessage_oversize_line_alone (text line : JsString.t) :
  line ∈ JsString.split_newline text ->
  oversize line ->
  line ∈ splitMessage text.
Proof.
  intros Hin Hbig. unfold splitMessage.
  apply elem_of_push_if_truthy.
  destruct (fold_loop_body_oversize line (JsString.split_newline text) (Locals [] []) Hbig)
    as [H | H]; [by right; right | by left |].
  right. split; [exact H|]. rewrite <- H. by apply oversize_truthy.
Qed.


(** A line of exactly 4096 letters followed by a short one: the long
    line is a chunk of its own. *)
Lemma splitMessage_oversize_line_alone_witness :
  Fixtures.long_line ∈ splitMessage Fixtures.long_then_short.
Proof.
  apply splitMessage_oversize_line_alone.
  - apply list_elem_of_In. vm_compute. left. reflexivity.
  - by vm_compute.
Defined.

End SplitMessageContent.

(* ===================================================================== *)
(** ** More on MultiSigService: how its methods compose *)
(* ===================================================================== *)

Module MultiSigServiceMore.
Import Solana Squads MultiSigService.
Import Async (Fulfilled, Rejected).
Import MultiSigServiceFacts.

(** The index [sendTx] computes is 1 exactly when the fetched index is 0. *)
Lemma next_index_one m :
  0 <= transactionIndex m -> (next_index m = 1 <-> transactionIndex m = 0).
Proof.
  intros Hnonneg. unfold next_index, JsNumber.BigInt, JsNumber.add, JsNumber.Number.
  split.
  - intros Hone. destruct (Z.eq_dec (transactionIndex m) 0) as [|Hpos]; [done|].
    pose proof (JsNumberFacts.round_positive (transactionIndex m) ltac:(lia)) as Hx.
    set (x := JsNumber.round_to_double (transactionIndex m)) in *.
    destruct (Z.lt_ge_cases (x + 1) (2 ^ 53)) as [Hsmall|Hlarge].
    + rewrite JsNumberFacts.round_small in Hone; lia.
    + pose proof (JsNumberFacts.round_large (x + 1) Hlarge). lia.
  - intros ->. reflexivity.
Qed.

(** X6.  The instruction that [executeTx] builds right after a fulfilled
    [sendTx] carries the index of the proposal [sendTx] just made exactly
    when the multisig account showed transaction index 0 to [sendTx]. *)
Theorem executeTx_matches_sendTx_iff_first ix st sent st1 r st2 m :
  sendTx ix st = (Fulfilled sent, st1) ->
  executeTx st1 = (Fulfilled r, st2) ->
  World.multisig_at (World.ledger (world st)) (S (World.clock (world st)))
    (multisigPda (this st)) = Fulfilled m ->
  0 <= transactionIndex m ->
  (index_of (instruction r) = index_of (create_ix sent) <-> transactionIndex m = 0).
Proof.
  intros Hsend Hexec Hm Hnonneg.
  destruct (sendTx_fulfilled ix st sent st1 Hsend) as (b & m' & _ & Hm' & -> & _).
  rewrite Hm in Hm'. injection Hm' as <-.
  destruct (executeTx_run st1) as (_ & _ & Hres). simpl in Hres.
  rewrite Hexec in Hres. simpl in Hres.
  destruct (World.lookupTables_at _ _ _); [|discriminate].
  injection Hres as ->. simpl.
  rewrite <- (next_index_one m Hnonneg). split; [by intros [= <-] | by intros ->].
Qed.

(** On a fresh multisig the driver's execute step names the proposal it
    has just made. *)
Lemma executeTx_matches_sendTx_iff_first_witness :
  exists sent st1 r st2,
    sendTx [] (Sample.store_of (Sample.ledger 0)) = (Fulfilled sent, st1) /\
    executeTx st1 = (Fulfilled r, st2) /\
    index_of (instruction r) = index_of (create_ix sent).
Proof.
  do 4 eexists. split; [cbv; reflexivity|]. split; [cbv; reflexivity|].
  refine (proj2 (executeTx_matches_sendTx_iff_first [] (Sample.store_of (Sample.ledger 0))
                   _ _ _ _ (Sample.account 0) _ _ eq_refl _) eq_refl);
    [cbv; reflexivity | cbv; reflexivity | simpl; lia].
Defined.

(** X7.  [sendTx] reserves nothing: a second [sendTx] that reads the same
    transaction index as the first tags its proposal with the same index;
    it tags it with the next one when the ledger shows the index advanced
    by one and still below 2^53. *)
Theorem sendTx_twice ix1 ix2 st r1 st1 r2 st2 m1 m2 :
  sendTx ix1 st = (Fulfilled r1, st1) ->
  sendTx ix2 st1 = (Fulfilled r2, st2) ->
  World.multisig_at (World.ledger (world st)) (S (World.clock (world st)))
    (multisigPda (this st)) = Fulfilled m1 ->
  World.multisig_at (World.ledger (world st1)) (S (World.clock (world st1)))
    (multisigPda (this st1)) = Fulfilled m2 ->
  (transactionIndex m2 = transactionIndex m1 ->
   index_of (create_ix r2) = index_of (create_ix r1)) /\
  (0 <= transactionIndex m1 ->
   transactionIndex m2 = transactionIndex m1 + 1 ->
   transactionIndex m2 < 2 ^ 53 ->
   index_of (create_ix r2) = Some (transactionIndex m1 + 2) /\
   index_of (create_ix r1) = Some (transactionIndex m1 + 1)).
Proof.
  intros Hfirst Hsecond Hm1 Hm2.
  destruct (sendTx_fulfilled ix1 st r1 st1 Hfirst) as (b1 & m1' & _ & Hm1' & -> & _).
  destruct (sendTx_fulfilled ix2 st1 r2 st2 Hsecond) as (b2 & m2' & _ & Hm2' & -> & _).
  rewrite Hm1 in Hm1'. injection Hm1' as <-.
  rewrite Hm2 in Hm2'. injection Hm2' as <-.
  simpl. unfold next_index. split.
  - by intros ->.
  - intros Hnonneg Hnext Hsmall.
    rewrite !JsNumberFacts.increment_exact by lia. split; f_equal; lia.
Qed.

(** The ledger keeps showing index 5: both proposals carry 6. *)
Lemma sendTx_twice_witness :
  exists r1 st1 r2 st2,
    sendTx [] (Sample.store_of (Sample.ledger 5)) = (Fulfilled r1, st1) /\
    sendTx [] st1 = (Fulfilled r2, st2) /\
    index_of (create_ix r1) = Some 6 /\
    index_of (create_ix r2) = index_of (create_ix r1).
Proof.
  destruct (sendTx [] (Sample.store_of (Sample.ledger 5))) as [o1 st1] eqn:Hfirst.
  pose proof Hfirst as Hv. cbv in Hv. injection Hv as <- <-.
  match type of Hfirst with _ = (_, ?s1) =>
    destruct (sendTx [] s1) as [o2 st2] eqn:Hsecond
  end.
  pose proof Hsecond as Hv. cbv in Hv. injection Hv as <- <-.
  do 4 eexists. split; [reflexivity|]. split; [exact Hsecond|].
  split; [reflexivity|].
  exact (proj1 (sendTx_twice [] [] _ _ _ _ _ (Sample.account 5) (Sample.account 5)
                  Hfirst Hsecond eq_refl eq_refl) eq_refl).
Defined.

Section WithSdk.
Context `{Sdk}.

(** X8.  Only a fulfilled [createMultiSig] ever writes to the service:
    [addSpendingLimit], [sendTx] and [executeTx] leave the whole object as
    it was, whether they fulfil or reject, and so does a rejected
    [createMultiSig]. *)
Theorem only_createMultiSig_writes st ix :
  this (snd (addSpendingLimit st)) = this st /\
  this (snd (sendTx ix st)) = this st /\
  this (snd (executeTx st)) = this st /\
  (forall e, fst (createMultiSig st) = Rejected e ->
             this (snd (createMultiSig st)) = this st).
Proof.
  split; [by rewrite addSpendingLimit_run|].
  split.
  { destruct (sendTx_cases ix st)
      as [(r & st' & Hrun) | [(e & He) | [(b & e & Hb & Hm) | (b & m & Hb & Hm & Hlarge)]]].
    - destruct (sendTx_fulfilled ix st r st' Hrun) as (_ & _ & _ & _ & _ & Hthis & _).
      by rewrite Hrun.
    - by destruct (sendTx_blockhash_rejected ix st e He) as (_ & _ & Hthis).
    - by destruct (sendTx_fetch_rejected ix st b e Hb Hm) as (_ & _ & Hthis).
    - by destruct (sendTx_index_refused ix st b m Hb Hm Hlarge) as (_ & _ & Hthis). }
  split; [by destruct (executeTx_run st) as (_ & Hthis & _)|].
  intros e He. destruct (createMultiSig_run st) as (_ & _ & Hres).
  destruct (World.programConfig_at _ _ _); destruct Hres as [Hfst Hthis];
    [congruence | exact Hthis].
Qed.

(** X9.  A service built by the constructor, with or without a create
    key, hands out from [createMultiSig] the very keypair its multisig
    address was derived from: the instruction's create key is that
    keypair's public key and its multisig address is the library's
    derivation from it. *)
Theorem createMultiSig_returns_deriving_key c fp a ck w s w' l r st' args :
  constructor c fp a ck w = (Fulfilled s, w') ->
  createMultiSig {| this := s; world := l |} = (Fulfilled r, st') ->
  cm_ix r = IxMultisigCreateV2 args ->
  mc_createKey args = publicKey (cm_create_key r) /\
  mc_multisigPda args = getMultisigPda (publicKey (cm_create_key r)) /\
  vaultPDA s = Some (getVaultPda (mc_multisigPda args) 0).
Proof.
  intros Hnew Hcreate Hix.
  destruct (createMultiSig_run {| this := s; world := l |}) as (_ & _ & Hres).
  rewrite Hcreate in Hres. simpl in Hres.
  destruct (World.programConfig_at _ _ _); destruct Hres as [Hr _]; [|discriminate].
  injection Hr as ->. simpl in Hix. injection Hix as <-. simpl.
  destruct ck as [k|]; cbv in Hnew; injection Hnew as <- _; by repeat split.
Qed.

End WithSdk.

(** No create key is passed: the key is generated, and returned. *)
Lemma createMultiSig_returns_deriving_key_witness :
  exists s w' r st' args,
    @constructor Sample.sdk Sample.endpoint Sample.feePayer Sample.agent None
      (Sample.world_of (Sample.ledger 0)) = (Fulfilled s, w') /\
    @createMultiSig Sample.sdk {| this := s; world := w' |} = (Fulfilled r, st') /\
    cm_ix r = IxMultisigCreateV2 args /\
    publicKey (cm_create_key r) = 100%N /\
    mc_multisigPda args = @getMultisigPda Sample.sdk (publicKey (cm_create_key r)).
Proof.
  destruct (@constructor Sample.sdk Sample.endpoint Sample.feePayer Sample.agent None
              (Sample.world_of (Sample.ledger 0))) as [o w'] eqn:Hnew.
  pose proof Hnew as Hv. cbv in Hv. injection Hv as <- <-.
  match type of Hnew with _ = (Fulfilled ?s, ?w') =>
    destruct (@createMultiSig Sample.sdk {| this := s; world := w' |})
      as [o' st'] eqn:Hcreate
  end.
  pose proof Hcreate as Hv. cbv in Hv. injection Hv as <- <-.
  do 5 eexists. split; [reflexivity|]. split; [exact Hcreate|].
  split; [reflexivity|]. split; [reflexivity|].
  exact (proj1 (proj2 (@createMultiSig_returns_deriving_key Sample.sdk
           _ _ _ _ _ _ _ _ _ _ _ Hnew Hcreate eq_refl))).
Defined.

(** A rejected [createMultiSig] leaves no treasury behind. *)
Lemma only_createMultiSig_writes_witness :
  this (snd (@createMultiSig Sample.sdk (Sample.store_of Sample.ledger_no_accounts)))
    = Sample.service.
Proof.
  refine (proj2 (proj2 (proj2 (@only_createMultiSig_writes Sample.sdk
            (Sample.store_of Sample.ledger_no_accounts) []))) _ _).
  cbv; reflexivity.
Defined.

End MultiSigServiceMore.

(* ===================================================================== *)
(** ** More on fetchHolderList: cache, cursors and owners *)
(* ===================================================================== *)

Module TokenProviderMore.
Import TokenProvider TokenProviderAux.
Import Async (Fulfilled, Rejected).
Import TokenProviderFacts.

Lemma get_None_iff {V} (k : string) (m : JsMap.t V) :
  JsMap.get k m = None <-> k ∉ JsMap.keys m.
Proof.
  split; [apply get_None_not_key|].
  induction m as [|[k' v'] rest IH]; simpl; intros Hnot; [reflexivity|].
  apply not_elem_of_cons in Hnot as [Hne Hrest].
  destruct (String.eqb_spec k k'); [contradiction | by apply IH].
Qed.

Section WithFloat.
Context `{JsFloat}.

Lemma add_account_keys m account :
  JsMap.keys (add_account m account) = add_key (JsMap.keys m) (owner account).
Proof.
  unfold add_account, add_key.
  destruct (JsMap.get (owner account) m) as [held|] eqn:Hget.
  - rewrite keys_set, Hget. destruct (decide (owner account ∈ JsMap.keys m)) as [|Hnot];
      [reflexivity|]. apply get_None_iff in Hnot. congruence.
  - rewrite keys_set, Hget. destruct (decide (owner account ∈ JsMap.keys m)) as [Hin|];
      [|reflexivity]. by apply get_None_iff in Hget.
Qed.

Lemma fold_add_account_keys accounts : forall m,
  JsMap.keys (fold_left add_account accounts m) =
  fold_left add_key (map owner accounts) (JsMap.keys m).
Proof.
  induction accounts as [|a rest IH]; intros m; simpl; [reflexivity|].
  by rewrite IH, add_account_keys.
Qed.

(** What the loop posts and what its map holds, for any fuel. *)
Lemma while_true_trace url mint : forall fuel l st,
  exists made,
    after st (snd (while_true fuel (loop_body url mint) l st)) made /\
    chained url mint (cursor_var l) made /\
    forall l', fst (while_true fuel (loop_body url mint) l st) = Fulfilled (Some l') ->
               JsMap.keys (allHoldersMap l') =
               fold_left add_key (owners_seen made) (JsMap.keys (allHoldersMap l)).
Proof.
  induction fuel as [|fuel IH]; intros l st; simpl.
  - exists []. split; [apply after_refl|]. split; [exact I | discriminate].
  - unfold Async.bind. rewrite loop_body_run.
    destruct (100 <? page l).
    { exists []. split; [apply after_refl|]. split; [exact I|]. simpl. by intros l' [= <-]. }
    set (rq := {| rq_url := url; rq_limit := 1000; rq_mint := mint;
                  rq_cursor := cursor_var l |}).
    pose proof (after_post st rq) as Hpost.
    destruct (network st (length (exchanges st)) rq) as [data|e].
    + destruct (accounts_of data) as [accounts|] eqn:Haccounts.
      * destruct (IH {| allHoldersMap := fold_left add_account accounts (allHoldersMap l);
                        page := page l + 1; cursor_var := cursor_of data |}
                     (snd (axios_post rq st)))
          as (made & Hafter & Hchain & Hkeys).
        exists ([(rq, Fulfilled data)] ++ made).
        split; [eapply after_trans; [exact Hpost | exact Hafter]|].
        split; [by split|].
        intros l' Hl'. rewrite (Hkeys l' Hl'). simpl.
        unfold owners_seen. simpl. rewrite Haccounts.
        by rewrite fold_left_app, fold_add_account_keys.
      * exists [(rq, Fulfilled data)]. split; [exact Hpost|]. split; [by split|].
        simpl. intros l' [= <-]. unfold owners_seen. simpl. by rewrite Haccounts.
    + exists [(rq, Rejected e)]. split; [exact Hpost|]. split; [by split | discriminate].
Qed.

(** X10.  What one call has returned, the next call returns again from
    the cache, without a post and without changing anything, as long as
    the entry has not expired and the token address is the same. *)
Theorem fetchHolderList_second_call_cached fuel fuel' st holders st' :
  fetchHolderList fuel st = (Fulfilled (Some holders), st') ->
  fetchHolderList fuel' st' = (Fulfilled (Some holders), st').
Proof.
  rewrite fetchHolderList_run.
  destruct (cache st !! String.append "holderList_" (token_address st)) as [data|] eqn:Hc.
  - intros [= <- <-]. by rewrite fetchHolderList_run, Hc.
  - destruct (while_true_frame (helius_url (env_HELIOUS_API_KEY st)) (token_address st) fuel
                {| allHoldersMap := []; page := 1; cursor_var := None |} st)
      as (made & (Haddr & _) & _); [apply NoDup_nil_2|].
    destruct (fst (while_true _ _ _ _)) as [[l|]|e]; [|discriminate..].
    intros [= <- <-]. rewrite fetchHolderList_run. simpl. rewrite Haddr.
    by rewrite lookup_insert_eq.
Qed.

(** X11.  A call that rejects has cached nothing: the cache is as it was
    before the call, so the next call goes to the network again; the
    reason of the rejection is always the same fixed message. *)
Theorem fetchHolderList_rejected_caches_nothing fuel st e st' :
  fetchHolderList fuel st = (Rejected e, st') ->
  cache st' = cache st /\
  cache st' !! String.append "holderList_" (token_address st') = None /\
  e = error_message.
Proof.
  rewrite fetchHolderList_run.
  destruct (cache st !! String.append "holderList_" (token_address st)) as [data|] eqn:Hc;
    [discriminate|].
  destruct (while_true_frame (helius_url (env_HELIOUS_API_KEY st)) (token_address st) fuel
              {| allHoldersMap := []; page := 1; cursor_var := None |} st)
    as (made & (Haddr & Hcache & _) & _); [apply NoDup_nil_2|].
  destruct (fst (while_true _ _ _ _)) as [[l|]|e0]; [discriminate.. |].
  intros [= <- <-]. by rewrite Hcache, Haddr, Hc.
Qed.

(** X12.  The posts of one call form one paging session: every post asks
    for 1000 accounts of the provider's token at the same URL, the first
    without a cursor, each later one with the cursor of the answer before
    it, and no post follows a rejected one. *)
Theorem fetchHolderList_cursor_chain fuel st :
  chained (helius_url (env_HELIOUS_API_KEY st)) (token_address st) None
    (exchanges_since st (snd (fetchHolderList fuel st))).
Proof.
  rewrite fetchHolderList_run.
  destruct (cache st !! String.append "holderList_" (token_address st)) as [data|].
  { simpl. by rewrite (after_exchanges_since st st [] (after_refl st)). }
  destruct (while_true_trace (helius_url (env_HELIOUS_API_KEY st)) (token_address st) fuel
              {| allHoldersMap := []; page := 1; cursor_var := None |} st)
    as (made & Hafter & Hchain & _).
  pose proof (after_exchanges_since _ _ _ Hafter) as Hsince.
  destruct (fst (while_true _ _ _ _)) as [[l|]|e]; simpl; try by rewrite Hsince.
  unfold exchanges_since in *. simpl. by rewrite Hsince.
Qed.

(** X13.  A list built from the network names exactly the owners that
    the answers of this call named, each once, in the order in which they
    first appeared. *)
Theorem fetchHolderList_owners fuel st holders st' :
  cache st !! String.append "holderList_" (token_address st) = None ->
  fetchHolderList fuel st = (Fulfilled (Some holders), st') ->
  map address holders = distinct (owners_seen (exchanges_since st st')).
Proof.
  intros Hmiss. rewrite fetchHolderList_run, Hmiss.
  destruct (while_true_trace (helius_url (env_HELIOUS_API_KEY st)) (token_address st) fuel
              {| allHoldersMap := []; page := 1; cursor_var := None |} st)
    as (made & Hafter & _ & Hkeys).
  pose proof (after_exchanges_since _ _ _ Hafter) as Hsince.
  destruct (fst (while_true _ _ _ _)) as [[l|]|e]; [|discriminate..].
  intros [= <- <-]. rewrite holders_of_addresses, (Hkeys l eq_refl).
  unfold exchanges_since in *. simpl. by rewrite Hsince.
Qed.

End WithFloat.

(** Two pages that name one owner, then an empty page; a second call. *)
Lemma fetchHolderList_second_call_cached_witness :
  exists holders st',
    @fetchHolderList Sample.float 101 (Sample.provider Sample.network_two_pages)
      = (Fulfilled (Some holders), st') /\
    @fetchHolderList Sample.float 101 st' = (Fulfilled (Some holders), st').
Proof.
  destruct (@fetchHolderList Sample.float 101 (Sample.provider Sample.network_two_pages))
    as [o st'] eqn:Hrun.
  assert (Ho : o = Fulfilled (Some [ {| address := "alice"; balance := "14" |} ])).
  { apply (f_equal fst) in Hrun. simpl in Hrun. rewrite <- Hrun. vm_compute. reflexivity. }
  subst o. do 2 eexists. split; [reflexivity|].
  exact (@fetchHolderList_second_call_cached Sample.float 101 101 _ _ _ Hrun).
Defined.


(** The network is down: the call rejects and the cache stays empty. *)
Lemma fetchHolderList_rejected_caches_nothing_witness :
  exists e st',
    @fetchHolderList Sample.float 101 (Sample.provider Fixtures.network_down)
      = (Rejected e, st') /\
    cache st' = ∅ /\ e = error_message.
Proof.
  destruct (@fetchHolderList Sample.float 101 (Sample.provider Fixtures.network_down))
    as [o st'] eqn:Hrun.
  assert (Ho : o = Rejected error_message).
  { apply (f_equal fst) in Hrun. simpl in Hrun. rewrite <- Hrun. vm_compute. reflexivity. }
  subst o. do 2 eexists. split; [reflexivity|].
  destruct (@fetchHolderList_rejected_caches_nothing Sample.float 101 _ _ _ Hrun)
    as (Hcache & _ & He).
  split; [exact Hcache | exact He].
Defined.

(** [alice], [bob], [alice] on one page: two holders, [alice] first. *)
Lemma fetchHolderList_owners_witness :
  exists holders st',
    @fetchHolderList Sample.float 101 (Sample.provider Fixtures.network_alice_bob)
      = (Fulfilled (Some holders), st') /\
    holders = [ {| address := "alice"; balance := "6" |};
                {| address := "bob"; balance := "3" |} ] /\
    map address holders =
      distinct (owners_seen
                  (exchanges_since (Sample.provider Fixtures.network_alice_bob) st')).
Proof.
  destruct (@fetchHolderList Sample.float 101 (Sample.provider Fixtures.network_alice_bob))
    as [o st'] eqn:Hrun.
  assert (Ho : o = Fulfilled (Some [ {| address := "alice"; balance := "6" |};
                                     {| address := "bob"; balance := "3" |} ])).
  { apply (f_equal fst) in Hrun. simpl in Hrun. rewrite <- Hrun. vm_compute. reflexivity. }
  subst o. do 2 eexists. split; [reflexivity|]. split; [reflexivity|].
  apply (@fetchHolderList_owners Sample.float 101
           (Sample.provider Fixtures.network_alice_bob) _ _ eq_refl Hrun).
Defined.

End TokenProviderMore.

(* ===================================================================== *)
(** ** Properties of ImageDescriptionService *)
(* ===================================================================== *)

Module ImageDescriptionFacts.
Import ImageDescription.
Import Async (Fulfilled, Rejected).
Import SplitMessageContent.

(** X14.  The title is the first line of the text and holds no line
    break.  When the text has a line break, title, line break and
    description give back the text; when it has none, the title is the
    whole text and the description is empty. *)
Theorem title_and_description_roundtrip (text : JsString.t) :
  let title := fst (title_and_description text) in
  let description := snd (title_and_description text) in
  (JsString.newline ∉ title) /\
  (JsString.newline ∈ text -> title ++ [JsString.newline] ++ description = text) /\
  (JsString.newline ∉ text -> title = text /\ description = []).
Proof.
  unfold title_and_description.
  pose proof (join_split text) as Hback.
  pose proof (split_lines_no_newline text) as Hlines.
  destruct (JsString.split_newline text) as [|title parts] eqn:Hsplit;
    [by apply split_newline_not_nil in Hsplit|].
  apply Forall_cons in Hlines as [Htitle _]. simpl.
  split; [exact Htitle|].
  destruct parts as [|p rest].
  - simpl in Hback. subst title. split; [by intros Hin | by intros _].
  - change (title ++ [JsString.newline] ++ JsArray.join_newline (p :: rest) = text)
      in Hback.
    split; [by intros _|]. intros Hnot. exfalso. apply Hnot. rewrite <- Hback.
    apply elem_of_app. right. apply elem_of_cons. by left.
Qed.

(** X15.  The first call of [getInstance] decides the key: whatever key
    a later call passes, it gets the instance built with the first key
    and leaves the static field as it is. *)
Theorem getInstance_first_key_wins (k1 k2 : string) (static_instance : statics) :
  let first := getInstance k1 static_instance in
  fst (getInstance k2 (snd first)) = fst first /\
  snd (getInstance k2 (snd first)) = snd first /\
  (static_instance = None -> apiKey (fst (getInstance k2 (snd first))) = k1).
Proof. destruct static_instance as [existing|]; simpl; by repeat split. Qed.

(** A title, a line break, a sentence. *)
Lemma title_and_description_roundtrip_witness :
  title_and_description (JsString.of_string "Cat
A cat.") = (JsString.of_string "Cat", JsString.of_string "A cat.") /\
  JsString.of_string "Cat" ++ [JsString.newline] ++ JsString.of_string "A cat."
    = JsString.of_string "Cat
A cat.".
Proof.
  split; [reflexivity|].
  apply (proj1 (proj2 (title_and_description_roundtrip (JsString.of_string "Cat
A cat.")))).
  apply list_elem_of_In. vm_compute. tauto.
Defined.

(** A second caller with another key gets the first caller's service. *)
Lemma getInstance_first_key_wins_witness :
  apiKey (fst (getInstance "second" (snd (getInstance "first" None)))) = "first"%string.
Proof.
  exact (proj2 (proj2 (getInstance_first_key_wins "first" "second" None)) eq_refl).
Defined.

Lemma fetched_since_app (w w' : Http) made :
  fetched w' = fetched w ++ made -> fetched_since w w' = made.
Proof. intros Hf. unfold fetched_since. rewrite Hf. apply drop_app_length. Qed.

(** One iteration of the retry loop, by the answer it gets. *)
Lemma retry_body_run rq i (w : Http) :
  let answer := fetch_at w (length (fetched w)) rq in
  let w1 := snd (fetch rq w) in
  retry_body rq i w =
    match attempt_result answer with
    | Fulfilled text => (Fulfilled (Return text), w1)
    | Rejected e =>
        (if i =? 2 then Rejected e else Fulfilled Next, snd (console_error e w1))
    end.
Proof.
  cbv zeta. unfold retry_body, attempt, Async.try_catch, Async.bind, fetch. cbn.
  destruct (fetch_at w (length (fetched w)) rq) as [response|e]; cbn.
  - destruct (ok response); cbn.
    + unfold settled. destruct (content response); cbn; [reflexivity|].
      by destruct (i =? 2).
    + by destruct (i =? 2).
  - by destruct (i =? 2).
Qed.

(** X16.  [requestOpenAI] posts the same request at most three times
    and at least once.  It fulfils with the content of the first answer
    that is neither a transport failure, nor an HTTP error, nor
    unreadable, every answer before it being one of those; it rejects
    only after three such answers, with the failure of the third. *)
Theorem requestOpenAI_three_attempts key imageUrl imageData prompt isGif (w : Http) :
  let rq := openai_request key imageUrl imageData prompt isGif in
  let out := fst (requestOpenAI key imageUrl imageData prompt isGif w) in
  let made :=
    fetched_since w (snd (requestOpenAI key imageUrl imageData prompt isGif w)) in
  Forall (fun x => fst x = rq) made /\
  (1 <= length made <= 3)%nat /\
  match out with
  | Fulfilled text =>
      exists before answer,
        made = before ++ [(rq, answer)] /\
        attempt_result answer = Fulfilled text /\
        Forall (fun x => exists e, attempt_result (snd x) = Rejected e) before
  | Rejected e =>
      length made = 3%nat /\
      exists answer, last made = Some (rq, answer) /\ attempt_result answer = Rejected e
  end.
Proof.
  cbv zeta. unfold requestOpenAI.
  set (rq := openai_request key imageUrl imageData prompt isGif).
  cbn [for_each]. unfold Async.bind.
  rewrite retry_body_run.
  destruct (attempt_result (fetch_at w (length (fetched w)) rq)) as [t1|e1] eqn:H1.
  { cbn. rewrite (fetched_since_app w _ [(rq, fetch_at w (length (fetched w)) rq)])
      by reflexivity.
    split; [by repeat constructor|]. split; [cbn; lia|].
    exists [], (fetch_at w (length (fetched w)) rq). by repeat split. }
  change (0 =? 2) with false. cbv beta iota.
  set (w1 := snd (console_error e1 (snd (fetch rq w)))).
  rewrite retry_body_run.
  destruct (attempt_result (fetch_at w1 (length (fetched w1)) rq)) as [t2|e2] eqn:H2.
  { cbn. rewrite (fetched_since_app w _
                    [(rq, fetch_at w (length (fetched w)) rq);
                     (rq, fetch_at w1 (length (fetched w1)) rq)])
      by (cbn; by rewrite <- app_assoc).
    split; [by repeat constructor|]. split; [cbn; lia|].
    exists [(rq, fetch_at w (length (fetched w)) rq)],
           (fetch_at w1 (length (fetched w1)) rq).
    split; [reflexivity|]. split; [exact H2|]. constructor; [by exists e1 | constructor]. }
  change (1 =? 2) with false. cbv beta iota.
  set (w2 := snd (console_error e2 (snd (fetch rq w1)))).
  rewrite retry_body_run.
  assert (Hmade : forall w3, fetched w3 = fetched w2 ++ [(rq, fetch_at w2 (length (fetched w2)) rq)] ->
            fetched_since w w3 =
              [(rq, fetch_at w (length (fetched w)) rq);
               (rq, fetch_at w1 (length (fetched w1)) rq);
               (rq, fetch_at w2 (length (fetched w2)) rq)]).
  { intros w3 Hw3. apply fetched_since_app. rewrite Hw3. cbn. by rewrite <- !app_assoc. }
  destruct (attempt_result (fetch_at w2 (length (fetched w2)) rq)) as [t3|e3] eqn:H3.
  - cbn. rewrite Hmade by reflexivity.
    split; [by repeat constructor|]. split; [cbn; lia|].
    exists [(rq, fetch_at w (length (fetched w)) rq);
            (rq, fetch_at w1 (length (fetched w1)) rq)],
           (fetch_at w2 (length (fetched w2)) rq).
    split; [reflexivity|]. split; [exact H3|].
    constructor; [by exists e1|]. constructor; [by exists e2 | constructor].
  - change (2 =? 2) with true. cbv beta iota. cbn. rewrite Hmade by reflexivity.
    split; [by repeat constructor|]. split; [cbn; lia|].
    split; [reflexivity|]. by exists (fetch_at w2 (length (fetched w2)) rq).
Qed.


(** X24.  [describeImage] of the keyed service makes exactly one request
    and never retries.  A transport failure is logged once and rethrown
    unchanged; an answer that is not [ok] is logged once and rejected
    with an HTTP error naming its status; a readable [ok] answer gives the
    title and description of its content and logs nothing. *)
Theorem describeImage_one_request (self : service) (imageUrl : string) (w : Http) :
  let rq := {| rq_endpoint := endpoint;
               rq_authorization := String.append "Bearer " (apiKey self);
               rq_model := "gpt-4o-mini";
               rq_prompt := describe_prompt;
               rq_image := ImageUrl imageUrl;
               rq_max_tokens := 300 |} in
  let answer := fetch_at w (length (fetched w)) rq in
  let out := fst (describeImage self imageUrl w) in
  let w' := snd (describeImage self imageUrl w) in
  fetched_since w w' = [(rq, answer)] /\
  (forall e, answer = Rejected e -> out = Rejected e /\ console w' = console w ++ [e]) /\
  (forall response, answer = Fulfilled response -> ok response = false ->
     let e := String.append "HTTP error! status: "
                (String.append (pretty (status response))
                   (String.append ", " (statusText response))) in
     out = Rejected e /\ console w' = console w ++ [e]) /\
  (forall response text, answer = Fulfilled response -> ok response = true ->
     content response = Fulfilled text ->
     out = Fulfilled (title_and_description text) /\ console w' = console w).
Proof.
  cbv zeta. unfold describeImage, Async.try_catch, Async.bind, fetch. cbn [fst snd].
  destruct (fetch_at w (length (fetched w)) _) as [response|e] eqn:Hanswer.
  - destruct (ok response) eqn:Hok; cbn [negb].
    + unfold settled. destruct (content response) as [text|e] eqn:Hcontent; cbn.
      * split; [by apply fetched_since_app|]. split; [discriminate|].
        split; [intros ? [= <-]; congruence|].
        intros response' text' [= <-] _ Htext. rewrite Hcontent in Htext.
        by injection Htext as <-.
      * split; [by apply fetched_since_app|]. split; [discriminate|].
        split; [intros ? [= <-]; congruence|].
        intros response' text' [= <-] _ Htext. congruence.
    + cbn. split; [by apply fetched_since_app|]. split; [discriminate|].
      split; [by intros ? [= <-] _|]. intros response' text' [= <-]. congruence.
  - cbn. split; [by apply fetched_since_app|].
    split; [by intros ? [= <-]|]. split; discriminate.
Qed.

(** A gateway error: one request, the HTTP error, one line on the console. *)
Lemma describeImage_one_request_witness :
  fst (describeImage {| apiKey := "sk-test" |} "https://files/large" Fixtures.http_502)
    = Rejected "HTTP error! status: 502, Bad Gateway"%string /\
  length (fetched_since Fixtures.http_502
            (snd (describeImage {| apiKey := "sk-test" |} "https://files/large"
                    Fixtures.http_502))) = 1%nat.
Proof.
  destruct (describeImage_one_request {| apiKey := "sk-test" |} "https://files/large"
              Fixtures.http_502) as (Hone & _ & Hhttp & _).
  split.
  - exact (proj1 (Hhttp _ eq_refl eq_refl)).
  - by rewrite Hone.
Defined.

End ImageDescriptionFacts.

(* ===================================================================== *)
(** ** Properties of the Telegram message handlers *)
(* ===================================================================== *)

Module TelegramFacts.
Import Telegram.
Import Async (Fulfilled, Rejected).

Lemma extend_nil w : extend w [] = w.
Proof. destruct w. unfold extend. simpl. by rewrite app_nil_r. Qed.

Lemma extend_extend w a b : extend (extend w a) b = extend w (a ++ b).
Proof. unfold extend. simpl. by rewrite app_assoc. Qed.

Lemma events_since_extend w evs : events_since w (extend w evs) = evs.
Proof. unfold events_since, extend. simpl. apply drop_app_length. Qed.

Lemma replies_app a b : replies (a ++ b) = replies a ++ replies b.
Proof. unfold replies. apply flat_map_app. Qed.

(** Every call appends its event and is answered by the moment. *)
Lemma call_run {A} ev (answer : Services -> nat -> Async.outcome A) w :
  call ev answer w = (answer (services w) (moment w), extend w [ev]).
Proof. reflexivity. Qed.

(** [processImage] always returns and sends nothing to the chat. *)
Lemma processImage_silent (m : Message) (w : World) :
  exists r evs,
    processImage m w = (Fulfilled r, extend w evs) /\
    replies evs = [] /\
    (no_image m -> r = None /\ evs = []).
Proof.
  unfold processImage, no_image, Async.try_catch, Async.bind, getFileLink,
    describeImage, console_error.
  destruct (image_file m) as [f|]; rewrite ?call_run.
  2:{ exists None, []. by rewrite extend_nil. }
  destruct (getFileLink_at _ _ f) as [url|e]; cbn [Async.ret].
  2:{ rewrite call_run, extend_extend. eexists None, _. by repeat split. }
  destruct (nonempty url); [|eexists None, _; by repeat split].
  rewrite call_run. destruct (describeImage_at _ _ url) as [described|e].
  - rewrite extend_extend. eexists (Some _), _. by repeat split.
  - rewrite call_run, !extend_extend. eexists None, _. by repeat split.
Qed.

(** X17.  [processImage] never rejects and never writes to the chat.  It
    leaves the world untouched for a message without image, and it
    returns a description only when both the file link and the
    description of the image were obtained; the description is then the
    bracketed title and text. *)
Theorem processImage_never_rejects (m : Message) (w : World) :
  exists r evs,
    processImage m w = (Fulfilled r, extend w evs) /\
    replies evs = [] /\
    (no_image m -> r = None /\ evs = []) /\
    (forall d, r = Some d ->
       exists f url title description,
         image_file m = Some f /\
         getFileLink_at (services w) (moment w) f = Fulfilled url /\
         describeImage_at (services w) (S (moment w)) url
           = Fulfilled (title, description) /\
         d = image_text title description).
Proof.
  unfold processImage, no_image, Async.try_catch, Async.bind.
  destruct (image_file m) as [f|] eqn:Hfile.
  - unfold getFileLink. rewrite call_run.
    destruct (getFileLink_at (services w) (moment w) f) as [url|e] eqn:Hlink.
    + cbn [Async.ret]. destruct (nonempty url) eqn:Hurl.
      * unfold describeImage. rewrite call_run.
        replace (moment (extend w [EvGetFileLink f])) with (S (moment w))
          by (unfold moment, extend; simpl; rewrite length_app; simpl; lia).
        simpl services.
        destruct (describeImage_at (services w) (S (moment w)) url)
          as [[title description]|e] eqn:Hdescribe.
        -- exists (Some (image_text title description)),
                  [EvGetFileLink f; EvDescribeImage url].
           rewrite extend_extend. split; [reflexivity|]. split; [reflexivity|].
           split; [discriminate|]. intros d [= <-].
           by exists f, url, title, description.
        -- exists None, [EvGetFileLink f; EvDescribeImage url; EvConsoleError e].
           unfold console_error. rewrite call_run, !extend_extend.
           split; [reflexivity|]. split; [reflexivity|]. split; discriminate.
      * exists None, [EvGetFileLink f]. split; [reflexivity|].
        split; [reflexivity|]. split; discriminate.
    + exists None, [EvGetFileLink f; EvConsoleError e].
      unfold console_error. rewrite call_run, extend_extend.
      split; [reflexivity|]. split; [reflexivity|]. split; discriminate.
  - exists None, []. rewrite extend_nil. split; [reflexivity|].
    split; [reflexivity|]. split; [done | discriminate].
Qed.


(** A photo in two sizes: the link of the larger one is asked for, and
    its description comes back in brackets. *)
Lemma processImage_never_rejects_witness :
  exists evs,
    processImage Fixtures.photo_message (Fixtures.telegram_world Fixtures.services_ok)
      = (Fulfilled (Some (JsString.of_string "[Image: Cat
A cat.]")),
         extend (Fixtures.telegram_world Fixtures.services_ok) evs) /\
    evs = [EvGetFileLink "large"; EvDescribeImage "https://files/large"].
Proof.
  destruct (processImage_never_rejects Fixtures.photo_message
              (Fixtures.telegram_world Fixtures.services_ok))
    as (r & evs & Hrun & _ & _ & Hsome).
  exists evs. pose proof Hrun as Hv. vm_compute in Hv. injection Hv as <- Hevs.
  destruct (Hsome _ eq_refl) as (f & url & title & description & _ & _ & _ & Hd).
  split; [exact Hrun | by rewrite Hevs].
Defined.

Lemma moment_extend w evs : moment (extend w evs) = (moment w + length evs)%nat.
Proof. unfold moment, extend. simpl. apply length_app. Qed.

(** What [handleMessage] does once [processImage] has returned: it stays
    quiet, or it sends the text, or something fails and it apologises. *)
Lemma handleMessage_cases ctx m sender w r evs1 :
  message ctx = Some m ->
  from ctx = Some sender ->
  processImage m w = (Fulfilled r, extend w evs1) ->
  let full := fullText m r in
  exists out evs2,
    handleMessage ctx w = (out, extend w (evs1 ++ evs2)) /\
    ((JsString.truthy full = false /\ out = Fulfilled tt /\ evs2 = []) \/
     (JsString.truthy full = true /\ out = Fulfilled tt /\
      exists name line key stamp,
        evs2 = [EvLogToFile name line; EvCacheSet key full stamp; EvReply full]) \/
     (JsString.truthy full = true /\
      exists pre e n n',
        evs2 = pre ++ [EvConsoleError e; EvReply apology] /\
        out = reply_at (services w) n apology /\
        (replies pre = [] \/ replies pre = [full]) /\
        ((exists a b, log_to_file_at (services w) n' a b = Rejected e) \/
         (exists k t stamp, cache_set_at (services w) n' k t stamp = Rejected e) \/
         reply_at (services w) n' full = Rejected e))).
Proof.
  intros Hm Hfrom Hproc full.
  destruct (handleMessage ctx w) as [out st] eqn:Hrun.
  unfold handleMessage in Hrun. rewrite Hm, Hfrom in Hrun.
  unfold Async.bind at 1 in Hrun. unfold Async.get at 1 in Hrun. cbv beta iota in Hrun.
  unfold Async.try_catch in Hrun. unfold Async.bind at 1 in Hrun.
  rewrite Hproc in Hrun. cbv beta iota in Hrun.
  fold full in Hrun. destruct (JsString.truthy full) eqn:Hfull; cbn [negb] in Hrun.
  2:{ injection Hrun as <- <-. exists (Fulfilled tt), []. rewrite app_nil_r.
      split; [reflexivity|]. by left. }
  unfold Async.bind at 1 in Hrun. unfold log_to_file in Hrun. rewrite call_run in Hrun.
  match type of Hrun with
  | context [log_to_file_at ?s ?n ?a ?b] =>
      set (name := a) in Hrun; set (line := b) in Hrun;
      destruct (log_to_file_at s n name line) as [[]|e] eqn:Hlog
  end.
  2:{ unfold Async.bind, console_error, reply in Hrun.
      rewrite !call_run, !extend_extend in Hrun. injection Hrun as <- <-.
      eexists _, ([EvLogToFile name line] ++ [EvConsoleError e; EvReply apology]).
      split; [by rewrite <- ?app_assoc|].
      right; right. split; [reflexivity|].
      eexists [EvLogToFile name line], e, _, _. split; [reflexivity|].
      split; [reflexivity|]. split; [by left|]. left. eexists _, _. exact Hlog. }
  unfold Async.bind at 1 in Hrun. unfold Async.get at 1 in Hrun. cbv beta iota in Hrun.
  unfold Async.bind at 1 in Hrun. unfold cache_set in Hrun. rewrite call_run in Hrun.
  match type of Hrun with
  | context [cache_set_at ?s ?n ?k ?t ?ts] =>
      set (key := k) in Hrun; set (stamp := ts) in Hrun;
      destruct (cache_set_at s n key t stamp) as [[]|e] eqn:Hcache
  end.
  2:{ unfold Async.bind, console_error, reply in Hrun.
      rewrite !call_run, !extend_extend in Hrun. injection Hrun as <- <-.
      eexists _, ([EvLogToFile name line; EvCacheSet key full stamp]
                    ++ [EvConsoleError e; EvReply apology]).
      split; [by rewrite <- ?app_assoc|].
      right; right. split; [reflexivity|].
      eexists [EvLogToFile name line; EvCacheSet key full stamp], e, _, _.
      split; [reflexivity|]. split; [reflexivity|]. split; [by left|].
      right; left. eexists _, _, _. exact Hcache. }
  unfold reply at 1 in Hrun. rewrite call_run in Hrun.
  match type of Hrun with
  | context [reply_at ?s ?n full] =>
      destruct (reply_at s n full) as [[]|e] eqn:Hreply
  end.
  - rewrite !extend_extend in Hrun. injection Hrun as <- <-.
    eexists _, [EvLogToFile name line; EvCacheSet key full stamp; EvReply full].
    split; [by rewrite <- ?app_assoc|].
    right; left. split; [reflexivity|]. split; [reflexivity|].
    by exists name, line, key, stamp.
  - unfold Async.bind, console_error, reply in Hrun.
    rewrite !call_run, !extend_extend in Hrun. injection Hrun as <- <-.
    eexists _, ([EvLogToFile name line; EvCacheSet key full stamp; EvReply full]
                  ++ [EvConsoleError e; EvReply apology]).
    split; [by rewrite <- ?app_assoc|].
    right; right. split; [reflexivity|].
    eexists [EvLogToFile name line; EvCacheSet key full stamp; EvReply full], e, _, _.
    split; [reflexivity|]. split; [reflexivity|]. split; [by right|].
    right; right. exact Hreply.
Qed.


(** X18.  [handleMessage] does nothing at all -- no call, no reply --
    when the update has no message or no sender, and when the message
    carries no image and no text. *)
Theorem handleMessage_nothing_to_say (ctx : Context) (w : World) :
  message ctx = None \/ from ctx = None \/
  (exists m, message ctx = Some m /\ no_image m /\ messageText m = []) ->
  handleMessage ctx w = (Fulfilled tt, w).
Proof.
  intros [Hnone | [Hnone | (m & Hm & Hbare & Htext)]].
  - unfold handleMessage. by rewrite Hnone.
  - unfold handleMessage. rewrite Hnone. by destruct (message ctx).
  - destruct (from ctx) as [sender|] eqn:Hfrom;
      [|unfold handleMessage; by rewrite Hm, Hfrom].
    destruct (processImage_silent m w) as (r & evs & Hproc & _ & Hquiet).
    destruct (Hquiet Hbare) as [-> ->].
    destruct (handleMessage_cases ctx m sender w None [] Hm Hfrom Hproc)
      as (out & evs2 & Hrun & Hcase).
    simpl in Hcase. rewrite Htext in Hcase. simpl in Hcase.
    destruct Hcase as [(_ & -> & ->) | [(Habs & _) | (Habs & _)]]; [|discriminate..].
    rewrite Hrun. simpl. by rewrite extend_nil.
Qed.

Lemma handleMessage_nothing_to_say_witness :
  handleMessage (Fixtures.context_of Fixtures.bare_message)
    (Fixtures.telegram_world Fixtures.services_ok)
  = (Fulfilled tt, Fixtures.telegram_world Fixtures.services_ok).
Proof.
  apply handleMessage_nothing_to_say. right; right.
  exists Fixtures.bare_message. by repeat split.
Defined.

(** X19.  When the logger, the cache and the chat accept every call,
    [handleMessage] fulfils and sends exactly one reply: the text of the
    message, followed by a space and the bracketed description when
    [processImage] produced one.  It sends nothing when that text is
    empty. *)
Theorem handleMessage_echo ctx m sender (w : World) :
  message ctx = Some m ->
  from ctx = Some sender ->
  (forall n a b, log_to_file_at (services w) n a b = Fulfilled tt) ->
  (forall n k t stamp, cache_set_at (services w) n k t stamp = Fulfilled tt) ->
  (forall n t, reply_at (services w) n t = Fulfilled tt) ->
  exists imageInfo w1,
    processImage m w = (Fulfilled imageInfo, w1) /\
    fst (handleMessage ctx w) = Fulfilled tt /\
    replies (events_since w (snd (handleMessage ctx w))) =
      if JsString.truthy (fullText m imageInfo) then [fullText m imageInfo] else [].
Proof.
  intros Hm Hfrom Hlog Hcache Hreply.
  destruct (processImage_silent m w) as (r & evs & Hproc & Hsilent & _).
  exists r, (extend w evs). split; [exact Hproc|].
  destruct (handleMessage_cases ctx m sender w r evs Hm Hfrom Hproc)
    as (out & evs2 & Hrun & Hcase).
  rewrite Hrun. simpl. rewrite events_since_extend, replies_app, Hsilent. simpl.
  destruct Hcase as [(Hfull & -> & ->) | [(Hfull & -> & Hsent) | (Hfull & Hfail)]].
  - by rewrite Hfull.
  - destruct Hsent as (name & line & key & stamp & ->). by rewrite Hfull.
  - destruct Hfail as (pre & e & n & n' & _ & _ & _ & Hwhy).
    destruct Hwhy as [(a & b & Habs) | [(k & t & stamp & Habs) | Habs]].
    + by rewrite Hlog in Habs.
    + by rewrite Hcache in Habs.
    + by rewrite Hreply in Habs.
Qed.

(** A photo with a caption: the reply is the caption and the description
    of the largest photo size. *)
Lemma handleMessage_echo_witness :
  replies (events_since (Fixtures.telegram_world Fixtures.services_ok)
             (snd (handleMessage (Fixtures.context_of Fixtures.photo_message)
                     (Fixtures.telegram_world Fixtures.services_ok))))
  = [JsString.of_string "look [Image: Cat
A cat.]"].
Proof.
  destruct (handleMessage_echo (Fixtures.context_of Fixtures.photo_message)
              Fixtures.photo_message Fixtures.sender
              (Fixtures.telegram_world Fixtures.services_ok))
    as (imageInfo & w1 & Hproc & _ & Hreplies); [reflexivity..|].
  rewrite Hreplies. vm_compute in Hproc. injection Hproc as <- _. reflexivity.
Defined.

(** The replies and the rejection of [handleMessage], whatever happens. *)
Lemma handleMessage_shape (ctx : Context) (w : World) :
  exists out evs,
    handleMessage ctx w = (out, extend w evs) /\
    (length (replies evs) <= 2)%nat /\
    (forall e, out = Rejected e ->
       last evs = Some (EvReply apology) /\
       exists n, reply_at (services w) n apology = Rejected e).
Proof.
  destruct (message ctx) as [m|] eqn:Hm.
  2:{ exists (Fulfilled tt), []. rewrite extend_nil.
      split; [unfold handleMessage; by rewrite Hm|].
      split; [simpl; lia | discriminate]. }
  destruct (from ctx) as [sender|] eqn:Hfrom.
  2:{ exists (Fulfilled tt), []. rewrite extend_nil.
      split; [unfold handleMessage; by rewrite Hm, Hfrom|].
      split; [simpl; lia | discriminate]. }
  destruct (processImage_silent m w) as (r & evs & Hproc & Hsilent & _).
  destruct (handleMessage_cases ctx m sender w r evs Hm Hfrom Hproc)
    as (out & evs2 & Hrun & Hcase).
  exists out, (evs ++ evs2). split; [exact Hrun|].
  rewrite replies_app, Hsilent. simpl.
  destruct Hcase as [(_ & -> & ->) | [(_ & -> & Hsent) | (_ & Hfail)]].
  - split; [simpl; lia | discriminate].
  - destruct Hsent as (name & line & key & stamp & ->). split; [simpl; lia | discriminate].
  - destruct Hfail as (pre & e & n & n' & -> & -> & Hpre & _).
    split.
    + rewrite replies_app. simpl. destruct Hpre as [-> | ->]; simpl; lia.
    + intros e' He'. split; [|by exists n].
      rewrite app_assoc. change [EvConsoleError e; EvReply apology]
        with ([EvConsoleError e] ++ [EvReply apology]).
      rewrite app_assoc. apply last_snoc.
Qed.

(** X20.  [handleMessage] writes to the chat at most twice, and it
    rejects only when its apology could not be sent: the last call is
    then the apology, and the rejection is the chat's answer to it. *)
Theorem handleMessage_rejects_only_on_apology (ctx : Context) (w : World) :
  let evs := events_since w (snd (handleMessage ctx w)) in
  (length (replies evs) <= 2)%nat /\
  (forall e, fst (handleMessage ctx w) = Rejected e ->
     last evs = Some (EvReply apology) /\
     exists n, reply_at (services w) n apology = Rejected e).
Proof.
  destruct (handleMessage_shape ctx w) as (out & evs & Hrun & Hcount & Hrej).
  rewrite Hrun. simpl. rewrite events_since_extend. by split.
Qed.

(** The chat is blocked: the text cannot be sent, nor can the apology. *)
Lemma handleMessage_rejects_only_on_apology_witness :
  let w := Fixtures.telegram_world Fixtures.services_mute in
  let ctx := Fixtures.context_of Fixtures.text_message in
  fst (handleMessage ctx w) = Rejected "403: bot was blocked by the user"%string /\
  last (events_since w (snd (handleMessage ctx w))) = Some (EvReply apology).
Proof.
  intros w ctx.
  assert (Hout : fst (handleMessage ctx w)
                 = Rejected "403: bot was blocked by the user"%string)
    by (vm_compute; reflexivity).
  split; [exact Hout|].
  exact (proj1 (proj2 (handleMessage_rejects_only_on_apology ctx w) _ Hout)).
Defined.

(** X21.  The handler that [TelegramClient] installs writes to the chat
    at most three times.  It is [handleMessage] when that fulfils;
    otherwise it sends its own apology, and it rejects only when that
    last apology could not be sent. *)
Theorem on_message_replies_bounded (ctx : Context) (w : World) :
  let evs := events_since w (snd (on_message ctx w)) in
  (length (replies evs) <= 3)%nat /\
  (fst (handleMessage ctx w) = Fulfilled tt -> on_message ctx w = handleMessage ctx w) /\
  (forall e, fst (handleMessage ctx w) = Rejected e ->
     last evs = Some (EvReply handler_apology) /\
     fst (on_message ctx w)
       = reply_at (services w) (pred (moment (snd (on_message ctx w)))) handler_apology).
Proof.
  destruct (handleMessage_shape ctx w) as (out & evs & Hrun & Hcount & _).
  unfold on_message, Async.try_catch. rewrite Hrun.
  destruct out as [[]|e]; cbv beta iota; cbn [fst snd].
  - rewrite events_since_extend. split; [lia|]. split; [done | discriminate].
  - unfold Async.bind, console_error, reply. rewrite !call_run, !extend_extend.
    cbn [fst snd]. rewrite events_since_extend, !replies_app. cbn [services extend].
    split; [rewrite !length_app; simpl; lia|]. split; [discriminate|].
    intros e' _. split.
    + apply last_snoc.
    + f_equal. rewrite !moment_extend, !length_app. simpl. lia.
Qed.

(** The chat is blocked: three attempts to write, then the rejection. *)
Lemma on_message_replies_bounded_witness :
  let w := Fixtures.telegram_world Fixtures.services_mute in
  let ctx := Fixtures.context_of Fixtures.text_message in
  replies (events_since w (snd (on_message ctx w)))
    = [JsString.of_string "hi"; apology; handler_apology] /\
  last (events_since w (snd (on_message ctx w))) = Some (EvReply handler_apology).
Proof.
  intros w ctx. split; [vm_compute; reflexivity|].
  refine (proj1 (proj2 (proj2 (on_message_replies_bounded ctx w)) _ _)).
  vm_compute. reflexivity.
Defined.

End TelegramFacts.

(* ===================================================================== *)
(** ** Properties of getSolanaTokenAddresses and of the balances *)
(* ===================================================================== *)

Module TokenProfilesFacts.
Import TokenProfiles.
Import Async (Fulfilled, Rejected).

Section WithText.
Variable toLowerCase : string -> string.

(** X22.  [getSolanaTokenAddresses] never rejects and makes exactly one
    GET, to the profile listing.  When the GET fails it fulfils with the
    empty list; otherwise an address is returned exactly when it is the
    token address of a listed profile whose chain id is ["solana"] once
    put in lower case, and no more addresses are returned than profiles
    were listed. *)
Theorem getSolanaTokenAddresses_never_rejects (w : Web) :
  let answer := get_at w (length (gets w)) apiUrl in
  exists addresses,
    fst (getSolanaTokenAddresses toLowerCase w) = Fulfilled addresses /\
    gets_since w (snd (getSolanaTokenAddresses toLowerCase w)) = [(apiUrl, answer)] /\
    (forall e, answer = Rejected e -> addresses = []) /\
    (forall data, answer = Fulfilled data ->
       (length addresses <= length data)%nat /\
       forall a, a ∈ addresses <->
                 exists p, p ∈ data /\ tokenAddress p = a /\
                           toLowerCase (chainId p) = "solana"%string).
Proof.
  cbv zeta. unfold getSolanaTokenAddresses, Async.try_catch, Async.bind, axios_get.
  cbn [fst snd].
  destruct (get_at w (length (gets w)) apiUrl) as [data|e] eqn:Hanswer; cbn.
  - eexists. split; [reflexivity|]. unfold gets_since. cbn.
    split; [apply drop_app_length|]. split; [discriminate|].
    intros data' [= <-]. split.
    + rewrite length_map. apply List.filter_length_le.
    + intros a. rewrite list_elem_of_fmap. split.
      * intros (p & -> & Hin). apply list_elem_of_In, List.filter_In in Hin as [Hin Hsol].
        exists p. split; [by apply list_elem_of_In|]. split; [reflexivity|].
        by apply String.eqb_eq.
      * intros (p & Hin & <- & Hsol). exists p. split; [reflexivity|].
        apply list_elem_of_In, List.filter_In. split; [by apply list_elem_of_In|].
        by apply String.eqb_eq.
  - exists []. split; [reflexivity|]. unfold gets_since. cbn.
    split; [apply drop_app_length|]. split; [done | discriminate].
Qed.

End WithText.

(** Three profiles are listed, two on Solana, one of them spelt with a
    capital: both are returned, in the order of the listing. *)
Lemma getSolanaTokenAddresses_never_rejects_witness :
  fst (getSolanaTokenAddresses Fixtures.lower Fixtures.web_listing)
    = Fulfilled ["So1"; "So2"]%string /\
  fst (getSolanaTokenAddresses Fixtures.lower Fixtures.web_down) = Fulfilled [].
Proof.
  split; [vm_compute; reflexivity|].
  destruct (getSolanaTokenAddresses_never_rejects Fixtures.lower Fixtures.web_down)
    as (addresses & Hrun & _ & Hdown & _).
  rewrite Hrun. f_equal. by eapply Hdown.
Defined.

End TokenProfilesFacts.

Module TokenProviderTotalsFacts.
Import TokenProvider TokenProviderAux TokenProviderTotals.
Import Async (Fulfilled, Rejected).
Import TokenProviderFacts.

(** Looking a key up after a [set]. *)
Lemma get_set {V} (k k' : string) (v : V) (m : JsMap.t V) :
  JsMap.get k (JsMap.set k' v m) = if String.eqb k k' then Some v else JsMap.get k m.
Proof.
  induction m as [|[k0 v0] rest IH]; simpl; [reflexivity|].
  destruct (String.eqb_spec k' k0) as [->|Hne]; simpl.
  - by destruct (String.eqb_spec k k0).
  - rewrite IH. destruct (String.eqb_spec k k0) as [->|]; [|reflexivity].
    by destruct (String.eqb_spec k0 k').
Qed.

(** With one entry per key, an entry is what a lookup of its key finds. *)
Lemma entry_get {V} (k : string) (v : V) (m : JsMap.t V) :
  NoDup (JsMap.keys m) -> (k, v) ∈ m -> JsMap.get k m = Some v.
Proof.
  induction m as [|[k0 v0] rest IH]; simpl; intros Hnodup Hin.
  - by apply elem_of_nil in Hin.
  - apply NoDup_cons in Hnodup as [Hfresh Hrest].
    apply elem_of_cons in Hin as [[= -> ->] | Hin].
    + by rewrite String.eqb_refl.
    + destruct (String.eqb_spec k k0) as [->|_]; [|by apply IH].
      exfalso. apply Hfresh. apply list_elem_of_fmap. by exists (k0, v).
Qed.

Section WithFloat.
Context `{JsFloat}.

Lemma add_account_get o m account :
  JsMap.get o (add_account m account) = credit o (JsMap.get o m) account.
Proof.
  unfold add_account, credit.
  destruct (String.eqb_spec o (owner account)) as [->|Hne].
  - destruct (JsMap.get (owner account) m); by rewrite get_set, String.eqb_refl.
  - destruct (JsMap.get (owner account) m); rewrite get_set;
      by destruct (String.eqb_spec o (owner account)).
Qed.

Lemma fold_add_account_get o accounts : forall m,
  JsMap.get o (fold_left add_account accounts m) =
  fold_left (credit o) accounts (JsMap.get o m).
Proof.
  induction accounts as [|a rest IH]; intros m; simpl; [reflexivity|].
  by rewrite IH, add_account_get.
Qed.

(** What the map of the loop holds for an owner, for any fuel. *)
Lemma while_true_totals url mint o : forall fuel l st,
  exists made,
    after st (snd (while_true fuel (loop_body url mint) l st)) made /\
    forall l', fst (while_true fuel (loop_body url mint) l st) = Fulfilled (Some l') ->
               JsMap.get o (allHoldersMap l') =
               fold_left (credit o) (accounts_seen made) (JsMap.get o (allHoldersMap l)).
Proof.
  induction fuel as [|fuel IH]; intros l st; simpl.
  - exists []. split; [apply after_refl | discriminate].
  - unfold Async.bind. rewrite loop_body_run.
    destruct (100 <? page l).
    { exists []. split; [apply after_refl|]. simpl. by intros l' [= <-]. }
    set (rq := {| rq_url := url; rq_limit := 1000; rq_mint := mint;
                  rq_cursor := cursor_var l |}).
    pose proof (after_post st rq) as Hpost.
    destruct (network st (length (exchanges st)) rq) as [data|e].
    + destruct (accounts_of data) as [accounts|] eqn:Haccounts.
      * destruct (IH {| allHoldersMap := fold_left add_account accounts (allHoldersMap l);
                        page := page l + 1; cursor_var := cursor_of data |}
                     (snd (axios_post rq st)))
          as (made & Hafter & Hget).
        exists ([(rq, Fulfilled data)] ++ made).
        split; [eapply after_trans; [exact Hpost | exact Hafter]|].
        intros l' Hl'. rewrite (Hget l' Hl'). simpl.
        unfold accounts_seen. simpl. rewrite Haccounts.
        by rewrite fold_left_app, fold_add_account_get.
      * exists [(rq, Fulfilled data)]. split; [exact Hpost|].
        simpl. intros l' [= <-]. unfold accounts_seen. simpl. by rewrite Haccounts.
    + exists [(rq, Rejected e)]. split; [exact Hpost | discriminate].
Qed.

(** X23.  In a list built from the network, the balance of each holder
    is the text of the sum of that owner's amounts over all token
    accounts the answers of this call carried, added from left to right
    in the order they were read. *)
Theorem fetchHolderList_balances fuel st holders st' h :
  cache st !! String.append "holderList_" (token_address st) = None ->
  fetchHolderList fuel st = (Fulfilled (Some holders), st') ->
  h ∈ holders ->
  number_toString <$> total_of (address h) (accounts_seen (exchanges_since st st'))
    = Some (balance h).
Proof.
  intros Hmiss Hrun Hin. rewrite fetchHolderList_run, Hmiss in Hrun.
  destruct (while_true_totals (helius_url (env_HELIOUS_API_KEY st)) (token_address st)
              (address h) fuel {| allHoldersMap := []; page := 1; cursor_var := None |} st)
    as (made & Hafter & Hget).
  destruct (while_true_frame (helius_url (env_HELIOUS_API_KEY st)) (token_address st) fuel
              {| allHoldersMap := []; page := 1; cursor_var := None |} st)
    as (_ & _ & Hnodup); [apply NoDup_nil_2|].
  pose proof (after_exchanges_since _ _ _ Hafter) as Hsince.
  destruct (fst (while_true _ _ _ _)) as [[l|]|e]; [|discriminate..].
  injection Hrun as <- <-.
  unfold exchanges_since in *. simpl. rewrite Hsince.
  pose proof (Hget l eq_refl) as Hl. simpl in Hl.
  unfold total_of. rewrite <- Hl.
  unfold holders_of, JsMap.entries in Hin.
  apply list_elem_of_fmap in Hin as ([k v] & -> & Hentry). simpl.
  by rewrite (entry_get k v _ (Hnodup l eq_refl) Hentry).
Qed.

End WithFloat.

(** [alice] is named twice on the page, with 2 and with 4 tokens. *)
Lemma fetchHolderList_balances_witness :
  exists holders st',
    @fetchHolderList Sample.float 101 (Sample.provider Fixtures.network_alice_bob)
      = (Fulfilled (Some holders), st') /\
    @total_of Sample.float "alice"
      (accounts_seen (exchanges_since (Sample.provider Fixtures.network_alice_bob) st'))
      = Some 6.
Proof.
  destruct (@fetchHolderList Sample.float 101 (Sample.provider Fixtures.network_alice_bob))
    as [o st'] eqn:Hrun.
  assert (Ho : o = Fulfilled (Some [ {| address := "alice"; balance := "6" |};
                                     {| address := "bob"; balance := "3" |} ])).
  { apply (f_equal fst) in Hrun. simpl in Hrun. rewrite <- Hrun. vm_compute. reflexivity. }
  subst o. do 2 eexists. split; [reflexivity|].
  pose proof (@fetchHolderList_balances Sample.float 101
                (Sample.provider Fixtures.network_alice_bob) _ _
                {| address := "alice"; balance := "6" |} eq_refl Hrun
                ltac:(apply elem_of_cons; by left)) as Htotal.
  simpl in Htotal.
  destruct (total_of _ _) as [t|]; [|discriminate].
  injection Htotal as Ht. f_equal. by apply (inj pretty).
Defined.

End TokenProviderTotalsFacts.
